(** * homebridge-notify-alerts: trigger registry and notification dispatcher

    A shallow embedding of [src/webhookAccessory.ts] (the contact-sensor
    accessory: [getContactState], [setContactState], [sendNotification]) and
    of [dist/platform.js] ([configureAccessory], [discoverDevices]), followed
    by the properties of the specification that concern them.

    Conventions.
    - A property of a configuration object is a string or [undefined], as the
      [WebhookConfig] interface declares it; [undefined] is [None].
    - A response body is an arbitrary parsed JSON value ([jsval]).
    - A string holds its text in UTF-8, one [ascii] per byte.  JavaScript
      counts a string in UTF-16 code units: [js_length] and [js_prefix]
      count that way ([String.length] is the byte length).
    - Logging is recorded as a list of calls (level and arguments).
    - The asynchronous handler [setContactState] is split at its [await]:
      the part that runs when the host calls it, and the part that runs when
      the request settles.  An event loop with a virtual clock in
      milliseconds drives both, together with the timers. *)

From Stdlib Require Import String Ascii List ZArith Bool Lia Sorted.
From Stdlib Require Import DecimalString.
Import ListNotations.
Open Scope string_scope.

(* ================================================================= *)
(** ** JavaScript values *)

Module JS.

#[local] Set Warnings "-register-all".

(** A JavaScript number, as far as this code tells numbers apart: whether
    it is falsy (0, -0 or NaN), and the text that [String] gives for it
    (as in 401, 0.5, 1e+21 or NaN). *)
Record number : Type := mkNumber {
  is_falsy : bool;
  printed : string
}.

(** A parsed JSON value, or [undefined] (the result of reading a property
    that is not there).  [JObj] lists the own properties of the object,
    each key once. *)
Inductive jsval : Type :=
| JUndefined
| JNull
| JBool (b : bool)
| JNum (n : number)
| JStr (s : string)
| JArr (items : list jsval)
| JObj (props : list (string * jsval)).

(** Decimal rendering of an integer, as a template literal gives it for
    the status code of an HTTP response (three digits). *)
Definition dec (n : Z) : string := NilZero.string_of_int (Z.to_int n).

(** [!!v]. *)
Definition truthy (v : jsval) : bool :=
  match v with
  | JUndefined | JNull => false
  | JBool b => b
  | JNum n => negb (is_falsy n)
  | JStr s => negb (s =? "")
  | JArr _ | JObj _ => true
  end.

(** [`${v}`]: conversion to string inside a template literal. *)
Fixpoint to_string (v : jsval) : string :=
  match v with
  | JUndefined => "undefined"
  | JNull => "null"
  | JBool true => "true"
  | JBool false => "false"
  | JNum n => printed n
  | JStr s => s
  | JArr items =>
      (fix join (l : list jsval) : string :=
         match l with
         | [] => ""
         | x :: rest =>
             let sx := match x with
                       | JUndefined | JNull => ""
                       | _ => to_string x
                       end in
             match rest with
             | [] => sx
             | _ :: _ => sx ++ "," ++ join rest
             end
         end) items
  | JObj _ => "[object Object]"
  end.

(** [v.key] for the keys the accessory reads from a response body ([error]
    and [message]): defined by objects only. *)
Definition get_property (v : jsval) (key : string) : jsval :=
  match v with
  | JObj props =>
      match find (fun kv => fst kv =? key) props with
      | Some kv => snd kv
      | None => JUndefined
      end
  | _ => JUndefined
  end.

(** The number of UTF-16 code units that a byte of UTF-8 text begins: a
    continuation byte begins none, the lead byte of a character of four
    bytes begins two (a surrogate pair), any other lead byte one. *)
Definition units (c : ascii) : nat :=
  let b := nat_of_ascii c in
  if (b <? 128)%nat then 1
  else if (b <? 192)%nat then 0
  else if (b <? 240)%nat then 1
  else 2.

(** [s.length] *)
Fixpoint js_length (s : string) : nat :=
  match s with
  | EmptyString => 0
  | String c rest => units c + js_length rest
  end.

Definition byte_at (i : nat) (s : string) : N :=
  match String.get i s with
  | Some c => N_of_ascii c
  | None => 0%N
  end.

(** The high surrogate of the character whose four bytes are [lead]
    followed by the first three bytes of [rest].  A string that ends in
    half a pair is no UTF-8 text: the lone surrogate is written in three
    bytes, as generalised UTF-8 writes it. *)
Definition high_surrogate (lead : ascii) (rest : string) : string :=
  let code_point :=
    ((N_of_ascii lead mod 8) * 262144 + (byte_at 0 rest mod 64) * 4096
     + (byte_at 1 rest mod 64) * 64 + byte_at 2 rest mod 64)%N in
  let high := (55296 + (code_point - 65536) / 1024)%N in
  String (ascii_of_N 237)
    (String (ascii_of_N (128 + (high / 64) mod 64))
       (String (ascii_of_N (128 + high mod 64)) EmptyString)).

(** [s.substring(0, n)]: the first [n] code units, the whole of [s] when
    it has no more than [n].  A character is copied with all its bytes; a
    cut inside a surrogate pair leaves the high surrogate alone. *)
Fixpoint js_prefix (n : nat) (s : string) : string :=
  match s with
  | EmptyString => EmptyString
  | String c rest =>
      match units c, n with
      | 0, _ => String c (js_prefix n rest)
      | _, 0 => EmptyString
      | 1, S m => String c (js_prefix m rest)
      | _, 1 => high_surrogate c rest
      | _, S (S m) => String c (js_prefix m rest)
      end
  end.

(** Text in which every character is an ASCII character. *)
Fixpoint is_ascii (s : string) : bool :=
  match s with
  | EmptyString => true
  | String c rest => (nat_of_ascii c <? 128)%nat && is_ascii rest
  end.

(** A property of a configuration or payload object, typed [string] or
    [string | undefined] by the interface that declares it; a value of
    another type is outside the model. *)
Definition prop : Type := option string.

Definition truthy_prop (p : prop) : bool :=
  match p with
  | Some s => negb (s =? "")
  | None => false
  end.

(** [`${p}`] for a property. *)
Definition template (p : prop) : string :=
  match p with
  | Some s => s
  | None => "undefined"
  end.

(** [hay.includes(needle)] *)
Fixpoint contains (needle hay : string) : bool :=
  prefix needle hay
  || match hay with
     | EmptyString => false
     | String _ rest => contains needle rest
     end.

(** The double-quote character (code 34). *)
Definition dquote : string :=
  String (Ascii false true false false false true false false) EmptyString.

End JS.
Import JS.

(* ================================================================= *)
(** ** Configuration, logging and errors *)

(** [interface WebhookConfig] of platform.ts. *)
Record WebhookConfig : Type := mkWebhookConfig {
  name : prop;
  token : prop;
  text : prop;
  id : prop;
  title : prop;
  groupType : prop;
  iconURL : prop
}.

(** settings.ts *)
Definition PLATFORM_NAME : string := "NotifyWebhooks".
Definition PLUGIN_NAME : string := "homebridge-notify-alerts".

(** What the accessory receives from [axios.post]. *)
Record Response : Type := mkResponse {
  status : Z;
  statusText : string;
  data : jsval
}.

Inductive error : Type :=
| TypeError (message : string)
| AxiosError (message : string) (response_status : option Z)
| Error (message : string).

Inductive level : Type := Info | Warn | Err | Debug.

Inductive logarg : Type :=
| LStr (s : string)
| LPayload (payload : list (string * prop))
| LData (v : jsval)
| LError (e : error).

Record log_entry : Type := mkLog {
  lvl : level;
  args : list logarg
}.

(** Computations that log and may throw. *)
Module Eff.

Definition M (A : Type) : Type := (list log_entry * (error + A))%type.

Definition ret {A} (a : A) : M A := ([], inr a).

Definition bind {A B} (m : M A) (f : A -> M B) : M B :=
  match m with
  | (l, inl e) => (l, inl e)
  | (l, inr a) => let (l', r) := f a in ((l ++ l')%list, r)
  end.

Definition throw {A} (e : error) : M A := ([], inl e).

Definition log (v : level) (a : list logarg) : M unit := ([mkLog v a], inr tt).

Definition lift {A} (r : error + A) : M A := ([], r).

Definition logged {A} (m : M A) : list log_entry := fst m.

Definition outcome {A} (m : M A) : error + A := snd m.

End Eff.
Import Eff.

Notation "x <- c1 ;; c2" := (bind c1 (fun x => c2))
  (at level 61, c1 at next level, right associativity).
Notation "c1 ;; c2" := (bind c1 (fun _ => c2))
  (at level 61, right associativity).

(* ================================================================= *)
(** ** The notification request: [sendNotification] *)

(** The arguments of the [axios.post] call. *)
Record Request : Type := mkRequest {
  method : string;
  url : string;
  body : list (string * prop);
  headers : list (string * string);
  params : list (string * prop);
  timeout : Z;
  maxRedirects : Z;
  validateStatus : Z -> bool
}.

(** What the network does with one request. *)
Inductive transport : Type :=
| NoResponse (reason : string)
| Responded (r : Response).

(** [axios.post]: the promise is rejected when there is no response, and
    when [validateStatus] refuses the status of the response. *)
Definition axios_post (req : Request) (t : transport) : error + Response :=
  match t with
  | NoResponse reason => inl (AxiosError reason None)
  | Responded r =>
      if (status r =? 0)%Z || validateStatus req (status r)
      then inr r
      else inl (AxiosError ("Request failed with status code " ++ dec (status r))
                           (Some (status r)))
  end.

(** [token.substring(0, Math.min(5, token.length)) + '...'] *)
Definition token_shown (tok : string) : string :=
  js_prefix (Nat.min 5 (js_length tok)) tok.

Definition token_preview (tok : string) : string := token_shown tok ++ "...".

(** The payload object, key by key in insertion order. *)
Definition build_payload (cfg : WebhookConfig) : list (string * prop) :=
  let payload := [("text", text cfg)] in
  let payload := if truthy_prop (title cfg)
                 then (payload ++ [("title", title cfg)])%list else payload in
  let payload := if truthy_prop (groupType cfg)
                 then (payload ++ [("groupType", groupType cfg)])%list else payload in
  let payload := if truthy_prop (iconURL cfg)
                 then (payload ++ [("iconUrl", iconURL cfg)])%list else payload in
  payload.

(** [sendNotification] up to the [await]: endpoint, payload, debug logging,
    and the request handed to axios. *)
Definition sendNotification_request (cfg : WebhookConfig) : M Request :=
  let endpoint := "https://notifypush.pingie.com/notify-json/" ++ template (id cfg) in
  let payload := build_payload cfg in
  log Debug [LStr "Sending notification to:"; LStr endpoint] ;;
  preview <- match token cfg with
             | Some tok => ret (token_preview tok)
             | None => throw (TypeError
                 "Cannot read properties of undefined (reading 'substring')")
             end ;;
  log Debug [LStr "With token:"; LStr preview] ;;
  log Debug [LStr "Payload:"; LPayload payload] ;;
  ret {| method := "POST";
         url := endpoint;
         body := payload;
         headers := [("Content-Type", "application/json")];
         params := [("token", token cfg)];
         timeout := 10000%Z;
         maxRedirects := 0%Z;
         validateStatus := fun s => (s <? 500)%Z |}.

(** The request and the debug lines of [sendNotification] for a
    configuration whose token is [tok]. *)
Definition request_for (cfg : WebhookConfig) : Request :=
  {| method := "POST";
     url := "https://notifypush.pingie.com/notify-json/" ++ template (id cfg);
     body := build_payload cfg;
     headers := [("Content-Type", "application/json")];
     params := [("token", token cfg)];
     timeout := 10000%Z;
     maxRedirects := 0%Z;
     validateStatus := fun s => (s <? 500)%Z |}.

Definition request_logs (cfg : WebhookConfig) (tok : string) : list log_entry :=
  [mkLog Debug [LStr "Sending notification to:";
                LStr ("https://notifypush.pingie.com/notify-json/" ++ template (id cfg))];
   mkLog Debug [LStr "With token:"; LStr (token_preview tok)];
   mkLog Debug [LStr "Payload:"; LPayload (build_payload cfg)]].

(** The message of the error thrown for a status other than 200. *)
Definition errorMessage (response : Response) : string :=
  let errorMessage :=
    "API returned status " ++ dec (status response) ++ ": " ++ statusText response in
  if truthy (data response) then
    let errorMessage :=
      if truthy (get_property (data response) "error")
      then errorMessage ++ " - " ++ to_string (get_property (data response) "error")
      else errorMessage in
    let errorMessage :=
      if truthy (get_property (data response) "message")
      then errorMessage ++ " - " ++ to_string (get_property (data response) "message")
      else errorMessage in
    errorMessage
  else errorMessage.

(** [sendNotification] after the [await]. *)
Definition sendNotification_response (response : Response) : M jsval :=
  if negb (status response =? 200)%Z then
    throw (Error (errorMessage response))
  else
    log Info [LStr "Notification sent successfully. Response:"; LData (data response)] ;;
    ret (data response).


(** A definition is valid when its four required fields are truthy. *)
Definition valid (cfg : WebhookConfig) : bool :=
  truthy_prop (name cfg) && truthy_prop (token cfg)
  && truthy_prop (text cfg) && truthy_prop (id cfg).




Definition example_config : WebhookConfig :=
  {| name := Some "Front Door Alert"; token := Some "T"; text := Some "Hi";
     id := Some "ABC12345"; title := None; groupType := None; iconURL := None |}.

(* ================================================================= *)
(** ** The accessory: [NotifyWebhookAccessory] *)

(** [CharacteristicValue]: the primitive values a characteristic carries. *)
Inductive CharacteristicValue : Type :=
| VStr (p : prop)
| VNum (n : Z)
| VBool (b : bool).

(** [Characteristic.ContactSensorState] *)
Definition CONTACT_DETECTED : Z := 0%Z.
Definition CONTACT_NOT_DETECTED : Z := 1%Z.

(** A HomeKit service: its characteristics by name, each with the value
    that the plugin wrote last. *)
Definition Service : Type := list (string * CharacteristicValue).

(** [service.setCharacteristic(c, v)], as the call the plugin makes: the
    value is recorded under [c], and no other characteristic changes.  What
    hap-nodejs does to a value before it stores it (its checks on format
    and length) is not code of the plugin and is not modelled. *)
Fixpoint setCharacteristic (c : string) (v : CharacteristicValue) (s : Service)
  : Service :=
  match s with
  | [] => [(c, v)]
  | (c', v') :: rest =>
      if c' =? c then (c, v) :: rest else (c', v') :: setCharacteristic c v rest
  end.

Definition updateCharacteristic := setCharacteristic.

(** [PlatformAccessory]: what the platform reads and writes of it.  The
    AccessoryInformation service is always there; the ContactSensor service
    is there once it has been added. *)
Record PlatformAccessory : Type := mkAccessory {
  displayName : string;
  UUID : string;
  context_webhook : option WebhookConfig;
  AccessoryInformation : Service;
  ContactSensor : option Service
}.

(** [new this.api.platformAccessory(displayName, uuid)] *)
Definition platformAccessory (display uuid : string) : PlatformAccessory :=
  {| displayName := display; UUID := uuid; context_webhook := None;
     AccessoryInformation := []; ContactSensor := None |}.

(** An instance of the class: the accessory as the constructor leaves it,
    and the configuration it took from the accessory's context. *)
Record NotifyWebhookAccessory : Type := mkHandler {
  accessory : PlatformAccessory;
  webhookConfig : WebhookConfig
}.

(** What the constructor does to the accessory: it fills in the accessory
    information, gets or adds the contact sensor service, names it and sets
    it to closed. *)
Definition attach (cfg : WebhookConfig) (acc : PlatformAccessory)
  : PlatformAccessory :=
  let info :=
    setCharacteristic "SerialNumber" (VStr (name cfg))
      (setCharacteristic "Model" (VStr (Some "Webhook Contact Sensor"))
         (setCharacteristic "Manufacturer" (VStr (Some "Notify"))
            (AccessoryInformation acc))) in
  let service := match ContactSensor acc with
                 | Some s => s
                 | None => []
                 end in
  let service := setCharacteristic "Name" (VStr (name cfg)) service in
  let service :=
    updateCharacteristic "ContactSensorState" (VNum CONTACT_DETECTED) service in
  {| displayName := displayName acc; UUID := UUID acc;
     context_webhook := context_webhook acc;
     AccessoryInformation := info;
     ContactSensor := Some service |}.

(** The constructor: it takes its configuration from
    [accessory.context.webhook] and sets the accessory up. *)
Definition new_NotifyWebhookAccessory (acc : PlatformAccessory)
  : error + (PlatformAccessory * NotifyWebhookAccessory) :=
  match context_webhook acc with
  | None => inl (TypeError "Cannot read properties of undefined (reading 'name')")
  | Some cfg =>
      let acc' := attach cfg acc in
      inr (acc', {| accessory := acc'; webhookConfig := cfg |})
  end.

(** *** The handlers and the event loop *)

(** What the accessory does to the outside, in order of occurrence. *)
Inductive effect : Type :=
| ELog (e : log_entry)
| EPost (k : nat) (req : Request)
| ESetTimeout (delay : Z)
| EUpdate (value : Z)
| EAnswer (value : Z).

(** One accessory at run time: the clock (ms), the requests awaiting their
    response (each a suspended call of [setContactState]), the deadlines of
    the pending timers in order of creation, and what happened so far. *)
Record world : Type := mkWorld {
  clock : Z;
  next_request : nat;
  awaiting : list (nat * Request);
  timers : list Z;
  trace : list (Z * effect)
}.

Definition init : world :=
  {| clock := 0%Z; next_request := 0; awaiting := []; timers := []; trace := [] |}.

Definition emit (e : effect) (w : world) : world :=
  {| clock := clock w; next_request := next_request w; awaiting := awaiting w;
     timers := timers w; trace := (trace w ++ [(clock w, e)])%list |}.

Definition emit_logs (l : list log_entry) (w : world) : world :=
  fold_left (fun w e => emit (ELog e) w) l w.

(** [setTimeout(callback, delay)] *)
Definition setTimeout (delay : Z) (w : world) : world :=
  let w := emit (ESetTimeout delay) w in
  {| clock := clock w; next_request := next_request w; awaiting := awaiting w;
     timers := (timers w ++ [(clock w + delay)%Z])%list; trace := trace w |}.

(** [getContactState] *)
Definition getContactState (w : world) : Z := CONTACT_DETECTED.

(** [setContactState] from the end of the [try]/[catch] on: the outcome of
    [sendNotification] is logged and the timer is started. *)
Definition setContactState_settled (cfg : WebhookConfig) (r : M jsval) (w : world)
  : world :=
  let w := emit_logs (logged r) w in
  let w :=
    match outcome r with
    | inr _ =>
        emit (ELog (mkLog Info
          [LStr ("Successfully sent notification for: " ++ template (name cfg))])) w
    | inl e =>
        emit (ELog (mkLog Err
          [LStr ("Failed to send notification for " ++ template (name cfg) ++ ":");
           LError e])) w
    end in
  setTimeout 1000%Z w.

(** [value === n] for a number [n]. *)
Definition strict_eq_num (value : CharacteristicValue) (n : Z) : bool :=
  match value with
  | VNum m => (m =? n)%Z
  | _ => false
  end.

(** [setContactState] up to the [await]. *)
Definition setContactState (cfg : WebhookConfig) (value : CharacteristicValue)
  (w : world) : world :=
  if strict_eq_num value CONTACT_NOT_DETECTED then
    let w := emit (ELog (mkLog Info
      [LStr ("Contact sensor opened, triggering webhook: " ++ template (name cfg))])) w in
    match sendNotification_request cfg with
    | (logs, inr req) =>
        let w := emit_logs logs w in
        let w := emit (EPost (next_request w) req) w in
        {| clock := clock w; next_request := S (next_request w);
           awaiting := (awaiting w ++ [(next_request w, req)])%list;
           timers := timers w; trace := trace w |}
    | (logs, inl e) => setContactState_settled cfg (logs, inl e) w
    end
  else w.

(** The callback of the timer. *)
Definition auto_close (cfg : WebhookConfig) (w : world) : world :=
  let w := emit (EUpdate CONTACT_DETECTED) w in
  emit (ELog (mkLog Debug
    [LStr ("Auto-closed contact sensor: " ++ template (name cfg))])) w.

Definition at_time (t : Z) (w : world) : world :=
  {| clock := t; next_request := next_request w; awaiting := awaiting w;
     timers := timers w; trace := trace w |}.

Definition due (t : Z) (d : Z) : bool := (d <=? t)%Z.

(** Time passes until [t]: the timers due by then fire, each at its
    deadline, in order of creation. *)
Definition advance (cfg : WebhookConfig) (t : Z) (w : world) : world :=
  let pending := filter (fun d => negb (due t d)) (timers w) in
  let w' := fold_left (fun w d => auto_close cfg (at_time d w))
              (filter (due t) (timers w))
              {| clock := clock w; next_request := next_request w;
                 awaiting := awaiting w; timers := pending; trace := trace w |} in
  at_time (Z.max (clock w) t) w'.

(** What reaches the accessory from outside. *)
Inductive input : Type :=
| Activate (value : CharacteristicValue)
| Query
| Settle (k : nat) (t : transport).

Definition pending_request (k : nat) (w : world) : option Request :=
  option_map snd (find (fun kr => Nat.eqb (fst kr) k) (awaiting w)).

Definition resume (k : nat) (w : world) : world :=
  {| clock := clock w; next_request := next_request w;
     awaiting := filter (fun kr => negb (Nat.eqb (fst kr) k)) (awaiting w);
     timers := timers w; trace := trace w |}.

Definition step (cfg : WebhookConfig) (w : world) (ev : Z * input) : world :=
  let w := advance cfg (fst ev) w in
  match snd ev with
  | Activate value => setContactState cfg value w
  | Query => emit (EAnswer (getContactState w)) w
  | Settle k t =>
      match pending_request k w with
      | Some req =>
          setContactState_settled cfg
            (response <- lift (axios_post req t) ;; sendNotification_response response)
            (resume k w)
      | None => w
      end
  end.

Definition run (cfg : WebhookConfig) (evs : list (Z * input)) (w : world) : world :=
  fold_left (step cfg) evs w.

(** Readings of a trace. *)
Definition times_of (p : effect -> bool) (w : world) : list Z :=
  map fst (filter (fun te => p (snd te)) (trace w)).

Definition is_post (e : effect) : bool :=
  match e with EPost _ _ => true | _ => false end.
Definition is_timeout (e : effect) : bool :=
  match e with ESetTimeout _ => true | _ => false end.
Definition is_update (e : effect) : bool :=
  match e with EUpdate _ => true | _ => false end.

Definition posts := times_of is_post.
Definition armed := times_of is_timeout.
Definition resets := times_of is_update.

(** An update of the sensor to the closed value, which is the reset to
    idle; [closings] are the times of these. *)
Definition is_close (e : effect) : bool :=
  match e with
  | EUpdate value => (value =? CONTACT_DETECTED)%Z
  | _ => false
  end.

Definition closings := times_of is_close.

(** *** Schedules *)

(** A schedule is well formed from time [t] on, with [n] requests issued so
    far of which [inflight] await their response, when time does not go
    back and every settlement is that of a request in flight. *)
Fixpoint well_formed (t : Z) (n : nat) (inflight : list nat)
  (evs : list (Z * input)) : bool :=
  match evs with
  | [] => true
  | (t', i) :: rest =>
      (t <=? t')%Z &&
      match i with
      | Activate value =>
          if strict_eq_num value CONTACT_NOT_DETECTED
          then well_formed t' (S n) (inflight ++ [n])%list rest
          else well_formed t' n inflight rest
      | Query => well_formed t' n inflight rest
      | Settle k _ =>
          existsb (fun j => Nat.eqb j k) inflight
          && well_formed t' n (filter (fun j => negb (Nat.eqb j k)) inflight) rest
      end
  end.

(** The times of the activations that carry the open value, and the times
    of the settlements. *)
Definition is_opening (i : input) : bool :=
  match i with
  | Activate value => strict_eq_num value CONTACT_NOT_DETECTED
  | _ => false
  end.

Definition is_settlement (i : input) : bool :=
  match i with
  | Settle _ _ => true
  | _ => false
  end.

Definition activations (evs : list (Z * input)) : list Z :=
  map fst (filter (fun ev => is_opening (snd ev)) evs).

Definition settlements (evs : list (Z * input)) : list Z :=
  map fst (filter (fun ev => is_settlement (snd ev)) evs).

(** An answer to a query that is not the closed value. *)
Definition is_open_answer (e : effect) : bool :=
  match e with
  | EAnswer value => negb (value =? CONTACT_DETECTED)%Z
  | _ => false
  end.

(** The entries that the timer's callback adds to the trace. *)
Definition auto_close_trace (cfg : WebhookConfig) (d : Z) : list (Z * effect) :=
  [(d, EUpdate CONTACT_DETECTED);
   (d, ELog (mkLog Debug
     [LStr ("Auto-closed contact sensor: " ++ template (name cfg))]))].

(** The line that [setContactState] logs for the outcome of the dispatch. *)
Definition outcome_entry (cfg : WebhookConfig) (r : error + jsval) : log_entry :=
  match r with
  | inr _ =>
      mkLog Info
        [LStr ("Successfully sent notification for: " ++ template (name cfg))]
  | inl e =>
      mkLog Err
        [LStr ("Failed to send notification for " ++ template (name cfg) ++ ":");
         LError e]
  end.

(** What holds of the timers of every world that is reached: each timer
    that was started has fired or is pending, in the order of starting;
    the pending ones are in the order of their deadlines, which lie within
    the next 1000 ms; the resets are in the past. *)
Record timers_ok (w : world) : Prop := mkTimersOk {
  ok_account : (resets w ++ timers w)%list = map (fun s => (s + 1000)%Z) (armed w);
  ok_sorted : StronglySorted Z.le (timers w);
  ok_pending : Forall (fun d => (clock w < d <= clock w + 1000)%Z) (timers w);
  ok_past : Forall (fun d => (d <= clock w)%Z) (resets w)
}.

(* ================================================================= *)
(** ** The platform: [NotifyWebhookPlatform] *)

(** The platform's own array of cached accessories, the calls of
    [api.registerPlatformAccessories] so far, and the handlers created. *)
Record Platform : Type := mkPlatform {
  accessories : list PlatformAccessory;
  registered : list (string * string * list PlatformAccessory);
  handlers : list NotifyWebhookAccessory
}.

Definition empty_platform : Platform :=
  {| accessories := []; registered := []; handlers := [] |}.

(** [configureAccessory] *)
Definition configureAccessory (acc : PlatformAccessory) (p : Platform) : M Platform :=
  log Info [LStr "Loading accessory from cache:"; LStr (displayName acc)] ;;
  ret {| accessories := (accessories p ++ [acc])%list;
         registered := registered p; handlers := handlers p |}.

(** The string of a truthy property. *)
Definition nonempty (p : prop) : option string :=
  match p with
  | Some s => if s =? "" then None else Some s
  | None => None
  end.

Definition quoted (s : string) : string := dquote ++ s ++ dquote.

(** [accessory.context.webhook = webhook] *)
Definition set_context (webhook : WebhookConfig) (acc : PlatformAccessory)
  : PlatformAccessory :=
  {| displayName := displayName acc; UUID := UUID acc;
     context_webhook := Some webhook;
     AccessoryInformation := AccessoryInformation acc;
     ContactSensor := ContactSensor acc |}.

(** The array with the first element that satisfies [f] replaced: the
    object that [find] returned, after it has been written to. *)
Fixpoint replace_first {A} (f : A -> bool) (x : A) (l : list A) : list A :=
  match l with
  | [] => []
  | y :: rest => if f y then x :: rest else y :: replace_first f x rest
  end.

(** [for (const x of l) body] over a state, stopping at the first throw. *)
Fixpoint for_of {A S} (body : A -> S -> M S) (l : list A) (s : S) : M S :=
  match l with
  | [] => ret s
  | x :: rest => s' <- body x s ;; for_of body rest s'
  end.

Section Registry.

(** [api.hap.uuid.generate] *)
Variable generate : string -> string.

(** The body of the loop of [discoverDevices]; an entry of the array is a
    configuration object, or [null]/[undefined] ([None]). *)
Definition discover_one (entry : option WebhookConfig) (p : Platform) : M Platform :=
  match entry with
  | None =>
      log Warn [LStr "Skipping null or undefined webhook entry in configuration"] ;;
      ret p
  | Some webhook =>
      match nonempty (name webhook) with
      | None =>
          log Err [LStr "Webhook configuration is missing name"] ;;
          log Err [LStr ("Please add a " ++ quoted "name"
                         ++ " field to your webhook configuration")] ;;
          ret p
      | Some webhook_name =>
          if negb (truthy_prop (token webhook)) then
            log Err [LStr ("Webhook " ++ quoted webhook_name ++ " is missing token")] ;;
            log Err [LStr "Get your token from the Notify app settings"] ;;
            ret p
          else if negb (truthy_prop (text webhook)) then
            log Err [LStr ("Webhook " ++ quoted webhook_name ++ " is missing text")] ;;
            log Err [LStr ("Add a " ++ quoted "text"
                           ++ " field with your notification message")] ;;
            ret p
          else if negb (truthy_prop (id webhook)) then
            log Err [LStr ("Webhook " ++ quoted webhook_name ++ " is missing id")] ;;
            log Err [LStr ("Add an " ++ quoted "id" ++
              " field with your Device ID or Group ID (groups start with GRP)")] ;;
            log Err [LStr ("Example device: " ++ quoted "ABC12345"
                           ++ ", Example group: " ++ quoted "GRPFAMILY")] ;;
            ret p
          else
            let uuid := generate webhook_name in
            match find (fun accessory => UUID accessory =? uuid) (accessories p) with
            | Some existingAccessory =>
                log Info [LStr "Restoring existing accessory from cache:";
                          LStr (displayName existingAccessory)] ;;
                made <- lift (new_NotifyWebhookAccessory
                                (set_context webhook existingAccessory)) ;;
                ret {| accessories :=
                         replace_first (fun accessory => UUID accessory =? uuid)
                           (fst made) (accessories p);
                       registered := registered p;
                       handlers := (handlers p ++ [snd made])%list |}
            | None =>
                log Info [LStr "Adding new accessory:"; LStr webhook_name] ;;
                made <- lift (new_NotifyWebhookAccessory
                                (set_context webhook
                                   (platformAccessory webhook_name uuid))) ;;
                ret {| accessories := accessories p;
                       registered :=
                         (registered p
                          ++ [(PLUGIN_NAME, PLATFORM_NAME, [fst made])])%list;
                       handlers := (handlers p ++ [snd made])%list |}
            end
      end
  end.

(** [discoverDevices]; [config.webhooks] is an array, or something that is
    not one ([None]). *)
Definition discoverDevices (webhooks : option (list (option WebhookConfig)))
  (p : Platform) : M Platform :=
  match webhooks with
  | None =>
      log Warn [LStr "No webhooks configured. Please add webhooks to your config."] ;;
      ret p
  | Some l => for_of discover_one l p
  end.

End Registry.

(** The first required field of a definition that is not truthy, in the
    order in which [discoverDevices] checks them. *)
Definition missing_field (webhook : WebhookConfig) : option string :=
  if negb (truthy_prop (name webhook)) then Some "name"
  else if negb (truthy_prop (token webhook)) then Some "token"
  else if negb (truthy_prop (text webhook)) then Some "text"
  else if negb (truthy_prop (id webhook)) then Some "id"
  else None.

(** Record updates, one per required field. *)
Definition with_name (v : prop) (c : WebhookConfig) : WebhookConfig :=
  {| name := v; token := token c; text := text c; id := id c;
     title := title c; groupType := groupType c; iconURL := iconURL c |}.
Definition with_token (v : prop) (c : WebhookConfig) : WebhookConfig :=
  {| name := name c; token := v; text := text c; id := id c;
     title := title c; groupType := groupType c; iconURL := iconURL c |}.
Definition with_text (v : prop) (c : WebhookConfig) : WebhookConfig :=
  {| name := name c; token := token c; text := v; id := id c;
     title := title c; groupType := groupType c; iconURL := iconURL c |}.
Definition with_id (v : prop) (c : WebhookConfig) : WebhookConfig :=
  {| name := name c; token := token c; text := text c; id := v;
     title := title c; groupType := groupType c; iconURL := iconURL c |}.

(** A required field by its name. *)
Definition required (field : string) (webhook : WebhookConfig) : prop :=
  if field =? "name" then name webhook
  else if field =? "token" then token webhook
  else if field =? "text" then text webhook
  else if field =? "id" then id webhook
  else None.

(** The first line of the diagnostic for a definition that lacks [field]. *)
Definition missing_message (webhook : WebhookConfig) (field : string) : string :=
  if field =? "name" then "Webhook configuration is missing name"
  else "Webhook " ++ quoted (template (name webhook)) ++ " is missing " ++ field.

(** The lines that follow the first line of the diagnostic. *)
Definition hints (field : string) : list log_entry :=
  if field =? "name" then
    [mkLog Err [LStr ("Please add a " ++ quoted "name"
                      ++ " field to your webhook configuration")]]
  else if field =? "token" then
    [mkLog Err [LStr "Get your token from the Notify app settings"]]
  else if field =? "text" then
    [mkLog Err [LStr ("Add a " ++ quoted "text"
                      ++ " field with your notification message")]]
  else
    [mkLog Err [LStr ("Add an " ++ quoted "id" ++
       " field with your Device ID or Group ID (groups start with GRP)")];
     mkLog Err [LStr ("Example device: " ++ quoted "ABC12345"
                      ++ ", Example group: " ++ quoted "GRPFAMILY")]].

(** All accessories handed to [registerPlatformAccessories] so far. *)
Definition registered_accessories (p : Platform) : list PlatformAccessory :=
  concat (map snd (registered p)).

(** The entity built for a definition that has no cached accessory. *)
Definition new_entity (generate : string -> string) (webhook : WebhookConfig)
  : PlatformAccessory :=
  attach webhook
    (set_context webhook
       (platformAccessory (template (name webhook))
          (generate (template (name webhook))))).

(** Responses used as examples. *)
Definition ok : Response :=
  mkResponse 200 "OK" (JObj [("success", JBool true)]).

Definition unauthorized : Response :=
  mkResponse 401 "Unauthorized" (JObj [("error", JStr "Invalid token")]).




(** Schedules used as examples: two activations 100 ms apart, the first
    delivered after 250 ms and the second rejected after 300 ms; and one
    activation whose request takes 5000 ms. *)
Definition two_activations : list (Z * input) :=
  [(0%Z, Activate (VNum 1)); (100%Z, Activate (VNum 1));
   (250%Z, Settle 0 (Responded ok)); (400%Z, Settle 1 (Responded unauthorized))].

Definition slow_dispatch : list (Z * input) :=
  [(0%Z, Activate (VNum 1)); (5000%Z, Settle 0 (Responded ok))].

(* ================================================================= *)
(** ** More of the platform and of the accessory *)

(** [service.getCharacteristic(c).value], when the characteristic is there. *)
Fixpoint getCharacteristic (c : string) (s : Service) : option CharacteristicValue :=
  match s with
  | [] => None
  | (c', v) :: rest => if c' =? c then Some v else getCharacteristic c rest
  end.

(** What [discoverDevices] does to a cached accessory that it reuses for
    [webhook]: the context is written, then the constructor runs. *)
Definition rebind (webhook : WebhookConfig) (acc : PlatformAccessory)
  : PlatformAccessory :=
  attach webhook (set_context webhook acc).

(** The array with [g] applied to its first element that satisfies [f]. *)
Fixpoint apply_first {A} (f : A -> bool) (g : A -> A) (l : list A) : list A :=
  match l with
  | [] => []
  | y :: rest => if f y then g y :: rest else y :: apply_first f g rest
  end.

(** The entries of the array that pass the validation, in order. *)
Fixpoint valid_entries (l : list (option WebhookConfig)) : list WebhookConfig :=
  match l with
  | [] => []
  | Some webhook :: rest =>
      if valid webhook then webhook :: valid_entries rest else valid_entries rest
  | None :: rest => valid_entries rest
  end.

(** An accessory of identifier [uuid]. *)
Definition has_identifier (uuid : string) (acc : PlatformAccessory) : bool :=
  UUID acc =? uuid.

(** The cache after one pass over the valid definitions [ws]: each one
    rebinds the first cached accessory of its identifier, if there is one. *)
Definition reconcile_cache (generate : string -> string)
  (ws : list WebhookConfig) (accs : list PlatformAccessory)
  : list PlatformAccessory :=
  fold_left
    (fun accs w =>
       apply_first (has_identifier (generate (template (name w)))) (rebind w) accs)
    ws accs.

(** The valid definitions that find no accessory of their identifier in
    the cache. *)
Definition uncached (generate : string -> string)
  (accs : list PlatformAccessory) (ws : list WebhookConfig) : list WebhookConfig :=
  filter (fun w => negb (existsb (has_identifier (generate (template (name w)))) accs))
    ws.

(** Examples for the cache: an accessory of another name, a generator that
    prefixes the name, and a cache that holds the accessory of the example
    definition beside it. *)
Definition example_generate (n : string) : string := "uuid:" ++ n.

Definition garage_accessory : PlatformAccessory :=
  platformAccessory "Garage" "uuid:Garage".

Definition example_cache : Platform :=
  {| accessories := [garage_accessory;
                     platformAccessory "Front Door Alert" "uuid:Front Door Alert"];
     registered := []; handlers := [] |}.

(** The books of a world balance: the requests awaiting their response have
    distinct numbers, all issued; every request posted either awaits its
    response or has started its timer; every timer started either is
    pending or has fired its reset. *)
Record accounted (w : world) : Prop := mkAccounted {
  acc_distinct : NoDup (map fst (awaiting w));
  acc_issued : Forall (fun k => k < next_request w) (map fst (awaiting w));
  acc_posts : length (posts w) = length (awaiting w) + length (armed w);
  acc_timers : length (armed w) = length (timers w) + length (resets w)
}.

(** A configuration that has lost its token. *)
Definition tokenless_config : WebhookConfig :=
  {| name := Some "Front Door Alert"; token := None; text := Some "Hi";
     id := Some "ABC12345"; title := None; groupType := None; iconURL := None |}.

(** The platform's block of config.json. *)
Record PlatformConfig : Type := mkConfig {
  config_name : prop;
  webhooks : option (list (option WebhookConfig))
}.

(** An answer to a query. *)
Definition is_answer (e : effect) : bool :=
  match e with EAnswer _ => true | _ => false end.

(** The effects that the accessory of [cfg] can have. *)
Definition expected_effect (cfg : WebhookConfig) (e : effect) : Prop :=
  match e with
  | ELog _ => True
  | EPost _ req => req = request_for cfg
  | ESetTimeout delay => delay = 1000%Z
  | EUpdate value => value = CONTACT_DETECTED
  | EAnswer value => value = CONTACT_DETECTED
  end.

Section Lifecycle.

Variable generate : string -> string.

(** The constructor of the platform: the accessories array starts empty. *)
Definition new_NotifyWebhookPlatform (config : PlatformConfig) : M Platform :=
  log Debug [LStr "Finished initializing platform:";
             LStr (if truthy_prop (config_name config)
                   then template (config_name config) else "NotifyWebhooks")] ;;
  ret empty_platform.

(** The callback registered for [didFinishLaunching]. *)
Definition didFinishLaunching (config : PlatformConfig) (p : Platform) : M Platform :=
  log Debug [LStr "Executed didFinishLaunching callback"] ;;
  discoverDevices generate (webhooks config) p.

(** One start of the host: the platform is constructed, the host hands it
    every cached accessory, then signals that it has finished launching. *)
Definition startup (config : PlatformConfig) (cached : list PlatformAccessory)
  : M Platform :=
  p <- new_NotifyWebhookPlatform config ;;
  p <- for_of configureAccessory cached p ;;
  didFinishLaunching config p.

End Lifecycle.

(* ================================================================= *)
(** ** The settings UI server: [testWebhook] and [makeHttpsRequest] *)

(** What [testWebhook] answers to the settings page. *)
Record TestResult : Type := mkTestResult {
  success : bool;
  result_message : option string;
  result_error : option jsval
}.

(** The options of [https.request] and the body written to the request. *)
Record HttpsRequest : Type := mkHttpsRequest {
  hostname : string;
  port : Z;
  path : string;
  https_method : string;
  content_type : string;
  content_length : nat;
  postData : string
}.

(** What becomes of the request: an [error] event, or the [end] of a
    response with its status code and the chunks received. *)
Inductive https_outcome : Type :=
| RequestError (e : error)
| ResponseEnd (statusCode : Z) (data : string).

(** [error.message] *)
Definition error_message (e : error) : string :=
  match e with
  | TypeError m => m
  | AxiosError m _ => m
  | Error m => m
  end.

(** [a || b] *)
Definition js_or (a b : jsval) : jsval := if truthy a then a else b.

(** The payload object that [testWebhook] builds. *)
Definition apiPayload (payload : WebhookConfig) : list (string * prop) :=
  let apiPayload := [("text", text payload)] in
  let apiPayload := if truthy_prop (title payload)
                    then (apiPayload ++ [("title", title payload)])%list
                    else apiPayload in
  let apiPayload := if truthy_prop (groupType payload)
                    then (apiPayload ++ [("groupType", groupType payload)])%list
                    else apiPayload in
  let apiPayload := if truthy_prop (iconURL payload)
                    then (apiPayload ++ [("iconUrl", iconURL payload)])%list
                    else apiPayload in
  apiPayload.

Section UiServer.

(** [JSON.parse] ([None] when it throws), [JSON.stringify] and
    [encodeURIComponent]. *)
Variable JSON_parse : string -> option jsval.
Variable JSON_stringify : list (string * prop) -> string.
Variable encodeURIComponent : string -> string.

(** [makeHttpsRequest] up to [req.end()]. *)
Definition makeHttpsRequest_request (target tok : prop)
  (payload : list (string * prop)) : HttpsRequest :=
  let postData := JSON_stringify payload in
  {| hostname := "notifypush.pingie.com";
     port := 443;
     path := "/notify-json/" ++ template target ++ "?token="
             ++ encodeURIComponent (template tok);
     https_method := "POST";
     content_type := "application/json";
     content_length := String.length postData;
     postData := postData |}.

(** The inner [try] of the [end] handler: [None] when [JSON.parse] throws,
    and when the parsed value is [null], whose property cannot be read. *)
Definition parsed_detail (data : string) (errorMessage : jsval) : option jsval :=
  match JSON_parse data with
  | None => None
  | Some response =>
      match response with
      | JNull | JUndefined => None
      | _ => Some (js_or (get_property response "message")
                     (js_or (get_property response "error") errorMessage))
      end
  end.

(** The [end] handler of the response. *)
Definition on_end (statusCode : Z) (data : string) : TestResult :=
  if (statusCode =? 200)%Z then
    {| success := true;
       result_message := Some "Notification sent successfully!";
       result_error := None |}
  else
    let errorMessage := JStr ("HTTP " ++ dec statusCode) in
    let errorMessage :=
      match parsed_detail data errorMessage with
      | Some detail => detail
      | None => if negb (data =? "") then JStr data else errorMessage
      end in
    {| success := false; result_message := None;
       result_error := Some errorMessage |}.

(** The promise of [makeHttpsRequest]: rejected on an [error] event,
    resolved at the [end] of the response. *)
Definition makeHttpsRequest_settle (net : https_outcome) : error + TestResult :=
  match net with
  | RequestError e => inl e
  | ResponseEnd statusCode data => inr (on_end statusCode data)
  end.

(** [testWebhook] up to the [await]: an answer at once, or the request. *)
Definition testWebhook_request (payload : WebhookConfig)
  : TestResult + HttpsRequest :=
  if negb (truthy_prop (token payload)) || negb (truthy_prop (text payload)) then
    inl {| success := false; result_message := None;
           result_error :=
             Some (JStr "Missing required fields: token and text are required") |}
  else if negb (truthy_prop (id payload)) then
    inl {| success := false; result_message := None;
           result_error := Some (JStr "ID is required") |}
  else
    inr (makeHttpsRequest_request (id payload) (token payload) (apiPayload payload)).

(** [testWebhook], given what becomes of the request if one is made; the
    log is that of [console.error]. *)
Definition testWebhook (payload : WebhookConfig) (net : https_outcome)
  : M TestResult :=
  match testWebhook_request payload with
  | inl answer => ret answer
  | inr _ =>
      match makeHttpsRequest_settle net with
      | inr result => ret result
      | inl e =>
          log Err [LStr "Test webhook error:"; LError e] ;;
          ret {| success := false; result_message := None;
                 result_error := Some (JStr (error_message e)) |}
      end
  end.

End UiServer.

(** Examples for the event loop and the test server: a schedule without an
    opening activation; the world in which one request is pending; a body
    that is a JSON object with a message, and a parser that knows it and
    the body [null]. *)
Definition quiet_schedule : list (Z * input) :=
  [(0%Z, Activate (VNum 0)); (5%Z, Query); (10%Z, Activate (VBool true));
   (20%Z, Settle 0 (Responded ok))].


Definition not_found_body : string :=
  "{" ++ quoted "message" ++ ":" ++ quoted "Device not found" ++ "}".

Definition example_parse (data : string) : option jsval :=
  if data =? "null" then Some JNull
  else if data =? not_found_body
       then Some (JObj [("message", JStr "Device not found")])
  else None.

(* ================================================================= *)
(** * Properties *)

(** ** Strings and the logging monad *)



Lemma truthy_prop_some (p : prop) :
  truthy_prop p = true -> exists s, p = Some s /\ s <> "".
Proof.
  destruct p as [s|]; simpl; [|discriminate].
  intros H. exists s. split; [reflexivity|].
  destruct (String.eqb_spec s ""); [discriminate | assumption].
Qed.

Lemma valid_fields (cfg : WebhookConfig) :
  valid cfg = true ->
  truthy_prop (name cfg) = true /\ truthy_prop (token cfg) = true
  /\ truthy_prop (text cfg) = true /\ truthy_prop (id cfg) = true.
Proof.
  unfold valid. rewrite !andb_true_iff. tauto.
Qed.

Lemma request_of_valid (cfg : WebhookConfig) (tok : string) :
  token cfg = Some tok ->
  sendNotification_request cfg = (request_logs cfg tok, inr (request_for cfg)).
Proof.
  intros Ht. unfold sendNotification_request, request_for, request_logs.
  rewrite Ht. reflexivity.
Qed.

(** ** The request *)





Example example_request :
  outcome (sendNotification_request example_config) =
  inr {| method := "POST";
         url := "https://notifypush.pingie.com/notify-json/ABC12345";
         body := [("text", Some "Hi")];
         headers := [("Content-Type", "application/json")];
         params := [("token", Some "T")];
         timeout := 10000;
         maxRedirects := 0;
         validateStatus := fun s => (s <? 500)%Z |}.
Proof. reflexivity. Qed.

(** ** The outcome of a dispatch *)









(** ** The token in the log *)

Lemma units_bound (c : ascii) : units c <= 2.
Proof.
  unfold units.
  destruct (nat_of_ascii c <? 128)%nat; [lia|].
  destruct (nat_of_ascii c <? 192)%nat; [lia|].
  destruct (nat_of_ascii c <? 240)%nat; lia.
Qed.

Lemma units_of_N (k : N) :
  (k < 256)%N ->
  units (ascii_of_N k) =
  if (k <? 128)%N then 1 else if (k <? 192)%N then 0
  else if (k <? 240)%N then 1 else 2.
Proof.
  intros Hk. unfold units, nat_of_ascii. rewrite (N_ascii_embedding k Hk).
  destruct (N.ltb_spec k 128), (N.ltb_spec k 192), (N.ltb_spec k 240),
    (Nat.ltb_spec (N.to_nat k) 128), (Nat.ltb_spec (N.to_nat k) 192),
    (Nat.ltb_spec (N.to_nat k) 240); try reflexivity; lia.
Qed.

(** Half a surrogate pair is one code unit. *)
Lemma high_surrogate_length (lead : ascii) (rest : string) :
  js_length (high_surrogate lead rest) = 1.
Proof.
  unfold high_surrogate. cbv zeta.
  set (high := (55296 + _ / 1024)%N).
  assert (H2 : ((high / 64) mod 64 < 64)%N) by (apply N.mod_lt; discriminate).
  assert (H3 : (high mod 64 < 64)%N) by (apply N.mod_lt; discriminate).
  set (x := ((high / 64) mod 64)%N) in *. set (y := (high mod 64)%N) in *.
  clearbody x y. clear high.
  cbn [js_length].
  rewrite !units_of_N by lia.
  assert (Hx1 : (128 + x <? 128)%N = false) by (apply N.ltb_ge; lia).
  assert (Hx2 : (128 + x <? 192)%N = true) by (apply N.ltb_lt; lia).
  assert (Hy1 : (128 + y <? 128)%N = false) by (apply N.ltb_ge; lia).
  assert (Hy2 : (128 + y <? 192)%N = true) by (apply N.ltb_lt; lia).
  rewrite Hx1, Hx2, Hy1, Hy2. reflexivity.
Qed.

Lemma js_prefix_all (s : string) (n : nat) :
  js_length s <= n -> js_prefix n s = s.
Proof.
  revert n; induction s as [|c s IH]; intros n Hn; [reflexivity|].
  cbn [js_length] in Hn. cbn [js_prefix].
  destruct (units c) as [|[|u]] eqn:Hu.
  - rewrite IH by lia. reflexivity.
  - destruct n as [|m]; [lia|]. rewrite IH by lia. reflexivity.
  - destruct n as [|[|m]]; [lia | lia |]. rewrite IH by lia. reflexivity.
Qed.

Lemma js_prefix_length (s : string) (n : nat) :
  n <= js_length s -> js_length (js_prefix n s) = n.
Proof.
  revert n; induction s as [|c s IH]; intros n Hn.
  - cbn in *. lia.
  - cbn [js_length] in Hn. cbn [js_prefix].
    pose proof (units_bound c) as Hb.
    destruct (units c) as [|[|u]] eqn:Hu.
    + cbn [js_length]. rewrite Hu, IH by lia. reflexivity.
    + destruct n as [|m]; [reflexivity|].
      cbn [js_length]. rewrite Hu, IH by lia. reflexivity.
    + destruct n as [|[|m]]; [reflexivity | apply high_surrogate_length |].
      cbn [js_length]. rewrite Hu, IH by lia. lia.
Qed.

(** What [js_prefix] keeps is a prefix of the text, followed by the first
    half of the next character when the cut falls inside a pair. *)
Lemma js_prefix_shape (s : string) (n : nat) :
  exists kept rest,
    s = kept ++ rest
    /\ (js_prefix n s = kept
        \/ exists lead tail,
             rest = String lead tail /\ units lead = 2
             /\ js_prefix n s = kept ++ high_surrogate lead tail).
Proof.
  revert n; induction s as [|c s IH]; intros n.
  - exists "", "". split; [reflexivity | left; reflexivity].
  - cbn [js_prefix]. pose proof (units_bound c) as Hb.
    assert (Hcons : forall m,
      exists kept rest,
        String c s = kept ++ rest
        /\ (String c (js_prefix m s) = kept
            \/ exists lead tail,
                 rest = String lead tail /\ units lead = 2
                 /\ String c (js_prefix m s) = kept ++ high_surrogate lead tail)).
    { intros m. destruct (IH m) as (kept & rest & Es & [Ek|(lead & tail & Er & Hl & Ek)]).
      - exists (String c kept), rest. split; [simpl; congruence|].
        left. congruence.
      - exists (String c kept), rest. split; [simpl; congruence|].
        right. exists lead, tail. repeat split; try assumption.
        simpl. congruence. }
    destruct (units c) as [|[|u]] eqn:Hu.
    + apply Hcons.
    + destruct n as [|m]; [|apply Hcons].
      exists "", (String c s). split; [reflexivity | left; reflexivity].
    + destruct n as [|[|m]]; [| |apply Hcons].
      * exists "", (String c s). split; [reflexivity | left; reflexivity].
      * exists "", (String c s). split; [reflexivity|].
        right. exists c, s. repeat split. lia.
Qed.

(** On ASCII text code units are bytes. *)
Lemma js_length_ascii (s : string) :
  is_ascii s = true -> js_length s = String.length s.
Proof.
  induction s as [|c s IH]; [reflexivity|].
  cbn [is_ascii js_length String.length]. intros H.
  apply andb_true_iff in H as [Hc Hs].
  unfold units. rewrite Hc, IH by assumption. reflexivity.
Qed.

Lemma js_prefix_ascii (s : string) (n : nat) :
  is_ascii s = true -> js_prefix n s = substring 0 n s.
Proof.
  revert n; induction s as [|c s IH]; intros n H.
  - destruct n; reflexivity.
  - cbn [is_ascii] in H. apply andb_true_iff in H as [Hc Hs].
    cbn [js_prefix]. unfold units. rewrite Hc.
    destruct n as [|m]; [reflexivity|].
    cbn [substring]. rewrite IH by assumption. reflexivity.
Qed.

(** C8, as the code has it.  The debug entry for the token shows the first
    [min 5 length] code units of the token followed by three dots, and no
    other entry of the request's logging takes the token.  Lengths are
    counted as JavaScript counts them.  For a token longer than 5 the entry
    shows 5 code units and not the whole token; what it shows is a prefix of
    the token, with half a surrogate pair after it when the cut falls inside
    one.  A token of length 5 or less is shown whole.  For an ASCII token
    this is the cut after [min 5 length] characters. *)
Theorem token_log_preview (cfg : WebhookConfig) (tok : string)
  (Htoken : token cfg = Some tok) :
  logged (sendNotification_request cfg) =
    [mkLog Debug [LStr "Sending notification to:";
                  LStr ("https://notifypush.pingie.com/notify-json/" ++ template (id cfg))];
     mkLog Debug [LStr "With token:"; LStr (token_shown tok ++ "...")];
     mkLog Debug [LStr "Payload:"; LPayload (build_payload cfg)]]
  /\ (5 < js_length tok ->
      token_shown tok = js_prefix 5 tok
      /\ js_length (token_shown tok) = 5
      /\ token_shown tok <> tok)
  /\ (js_length tok <= 5 -> token_shown tok = tok)
  /\ (exists kept rest,
        tok = kept ++ rest
        /\ (token_shown tok = kept
            \/ exists lead tail,
                 rest = String lead tail /\ units lead = 2
                 /\ token_shown tok = kept ++ high_surrogate lead tail))
  /\ (is_ascii tok = true ->
      js_length tok = String.length tok
      /\ token_shown tok = substring 0 (Nat.min 5 (String.length tok)) tok).
Proof.
  rewrite (request_of_valid cfg tok Htoken).
  unfold logged, request_logs, token_preview; cbn [fst].
  split; [reflexivity|]. unfold token_shown. split; [|split; [|split]].
  - intros Hlen. rewrite Nat.min_l by lia.
    assert (H5 : js_length (js_prefix 5 tok) = 5)
      by (apply js_prefix_length; lia).
    repeat split; [exact H5|].
    intros E. rewrite E in H5. lia.
  - intros Hlen. rewrite Nat.min_r by lia.
    apply js_prefix_all. lia.
  - apply js_prefix_shape.
  - intros Hascii. rewrite (js_length_ascii tok Hascii).
    split; [reflexivity|]. apply js_prefix_ascii. exact Hascii.
Qed.

(** A token of 14 ASCII characters is cut after 5.  A token of 5 Cyrillic
    and ASCII characters, 9 bytes long, is shown whole. *)
Lemma token_log_preview_witness :
  token (with_token (Some "XYZ789TOKEN123") example_config) = Some "XYZ789TOKEN123"
  /\ 5 < js_length "XYZ789TOKEN123"
  /\ token_shown "XYZ789TOKEN123" = "XYZ78"
  /\ String.length "ключ-" = 9
  /\ token_shown "ключ-" = "ключ-".
Proof.
  split; [reflexivity|]. split; [simpl; lia|].
  destruct (token_log_preview (with_token (Some "XYZ789TOKEN123") example_config)
              "XYZ789TOKEN123" eq_refl) as (_ & Hlong & _).
  destruct Hlong as (H & _ & _); [simpl; lia|].
  split; [rewrite H; reflexivity|]. split; [reflexivity|].
  destruct (token_log_preview (with_token (Some "ключ-") example_config)
              "ключ-" eq_refl) as (_ & _ & Hshort & _).
  apply Hshort. vm_compute. lia.
Defined.

(** C8 as stated fails for a short token: with the token [T] the debug
    entry reads [T...], which holds the token in full. *)
Lemma short_token_logged_in_full :
  In (mkLog Debug [LStr "With token:"; LStr "T..."])
     (logged (sendNotification_request example_config))
  /\ token example_config = Some "T"
  /\ token_shown "T" = "T"
  /\ ~ (contains "T" "T..." = false).
Proof.
  split; [simpl; auto|]. split; [reflexivity|]. split; [reflexivity|].
  discriminate.
Qed.

(** A cut inside a surrogate pair: the token is four ASCII characters
    followed by a character of four bytes (U+1F600) and two more
    characters; the fifth code unit is the high surrogate D83D. *)
Example token_cut_inside_pair :
  let face := String (ascii_of_N 240) (String (ascii_of_N 159)
                (String (ascii_of_N 152) (String (ascii_of_N 128) ""))) in
  let lone := String (ascii_of_N 237) (String (ascii_of_N 160)
                (String (ascii_of_N 189) "")) in
  js_length ("abcd" ++ face ++ "ef") = 8
  /\ token_shown ("abcd" ++ face ++ "ef") = "abcd" ++ lone
  /\ token_shown ("abc" ++ face ++ "ef") = "abc" ++ face.
Proof. cbv zeta. repeat split; reflexivity. Qed.

(* ================================================================= *)
(** ** Characteristics and arrays *)

Lemma get_set_same (c : string) (v : CharacteristicValue) (s : Service) :
  getCharacteristic c (setCharacteristic c v s) = Some v.
Proof.
  induction s as [|[c' v'] s IH]; cbn.
  - rewrite String.eqb_refl. reflexivity.
  - destruct (c' =? c) eqn:E; cbn; rewrite ?String.eqb_refl, ?E; auto.
Qed.

Lemma get_set_other (c c' : string) (v : CharacteristicValue) (s : Service) :
  c <> c' ->
  getCharacteristic c' (setCharacteristic c v s) = getCharacteristic c' s.
Proof.
  intros Hc. apply String.eqb_neq in Hc.
  induction s as [|[k x] s IH]; cbn.
  - rewrite Hc. reflexivity.
  - destruct (k =? c) eqn:E; cbn.
    + apply String.eqb_eq in E. subst k. rewrite Hc. reflexivity.
    + destruct (k =? c'); auto.
Qed.

(** Where [find] stops: the elements before the one it returns do not
    satisfy the test, and [replace_first] writes at that place. *)
Lemma find_first_split {A} (f : A -> bool) (y : A) (l : list A) (x : A) :
  find f l = Some x ->
  exists before after,
    l = (before ++ x :: after)%list
    /\ Forall (fun a => f a = false) before
    /\ f x = true
    /\ replace_first f y l = (before ++ y :: after)%list.
Proof.
  induction l as [|z l IH]; cbn [find replace_first]; [discriminate|].
  destruct (f z) eqn:Hz.
  - intros [= ->]. exists [], l. repeat split; [constructor | exact Hz].
  - intros Hf. destruct (IH Hf) as (before & after & El & Hb & Hx & Er).
    exists (z :: before), after. rewrite El at 1. rewrite Er.
    repeat split; [constructor; assumption | exact Hx].
Qed.

Lemma find_after_misses {A} (f : A -> bool) (before after : list A) (y : A) :
  Forall (fun a => f a = false) before -> f y = true ->
  find f (before ++ y :: after)%list = Some y.
Proof.
  intros Hb Hy. induction Hb as [|z before Hz Hb IH]; cbn [app find].
  - rewrite Hy. reflexivity.
  - rewrite Hz. exact IH.
Qed.

(* ================================================================= *)
(** ** Reconciliation *)

Section RegistryProperties.

Variable generate : string -> string.

Lemma for_of_app {A S} (body : A -> S -> M S) (l1 l2 : list A) (s : S) :
  for_of body (l1 ++ l2)%list s = (s' <- for_of body l1 s ;; for_of body l2 s').
Proof.
  revert s; induction l1 as [|x l1 IH]; intros s; simpl.
  - unfold bind, ret. destruct (for_of body l2 s). reflexivity.
  - unfold bind at 1 3. destruct (body x s) as [l [e|s']].
    + reflexivity.
    + rewrite IH. unfold bind.
      destruct (for_of body l1 s') as [l' [e|s'']].
      * reflexivity.
      * destruct (for_of body l2 s''). rewrite app_assoc. reflexivity.
Qed.

Lemma nonempty_truthy (p : prop) :
  truthy_prop p = true -> nonempty p = Some (template p).
Proof.
  destruct p as [s|]; simpl; [|discriminate].
  destruct (s =? ""); [discriminate | reflexivity].
Qed.

Lemma nonempty_falsy (p : prop) : truthy_prop p = false -> nonempty p = None.
Proof.
  destruct p as [s|]; simpl; [|reflexivity].
  destruct (s =? ""); [reflexivity | discriminate].
Qed.

(** A valid definition without a cached accessory: a new entity is created
    and registered. *)
Lemma discover_one_new (webhook : WebhookConfig) (p : Platform) :
  valid webhook = true ->
  find (fun a => UUID a =? generate (template (name webhook))) (accessories p) = None ->
  discover_one generate (Some webhook) p =
  ([mkLog Info [LStr "Adding new accessory:"; LStr (template (name webhook))]],
   inr {| accessories := accessories p;
          registered := (registered p
             ++ [(PLUGIN_NAME, PLATFORM_NAME, [new_entity generate webhook])])%list;
          handlers := (handlers p
             ++ [{| accessory := new_entity generate webhook;
                    webhookConfig := webhook |}])%list |}).
Proof.
  intros Hv Hfind. destruct (valid_fields _ Hv) as (Hn & Ht & Hx & Hi).
  unfold discover_one. rewrite (nonempty_truthy _ Hn), Ht, Hx, Hi. cbn [negb].
  rewrite Hfind. reflexivity.
Qed.

(** A valid definition with a cached accessory of its identifier: the
    accessory is written to and reused, nothing is registered. *)
Lemma discover_one_existing (webhook : WebhookConfig) (p : Platform)
  (known : PlatformAccessory) :
  valid webhook = true ->
  find (fun a => UUID a =? generate (template (name webhook))) (accessories p)
    = Some known ->
  discover_one generate (Some webhook) p =
  ([mkLog Info [LStr "Restoring existing accessory from cache:";
                LStr (displayName known)]],
   inr {| accessories :=
            replace_first (fun a => UUID a =? generate (template (name webhook)))
              (attach webhook (set_context webhook known)) (accessories p);
          registered := registered p;
          handlers := (handlers p
             ++ [{| accessory := attach webhook (set_context webhook known);
                    webhookConfig := webhook |}])%list |}).
Proof.
  intros Hv Hfind. destruct (valid_fields _ Hv) as (Hn & Ht & Hx & Hi).
  unfold discover_one. rewrite (nonempty_truthy _ Hn), Ht, Hx, Hi. cbn [negb].
  rewrite Hfind. reflexivity.
Qed.

(** A definition that lacks a required field is skipped: the diagnostic is
    logged and the platform is left as it was. *)
Lemma discover_one_invalid (webhook : WebhookConfig) (field : string) (p : Platform) :
  missing_field webhook = Some field ->
  discover_one generate (Some webhook) p =
  (mkLog Err [LStr (missing_message webhook field)] :: hints field, inr p).
Proof.
  unfold missing_field, discover_one, missing_message, hints.
  destruct (truthy_prop (name webhook)) eqn:Hn; cbn [negb].
  - rewrite (nonempty_truthy _ Hn).
    destruct (truthy_prop (token webhook)) eqn:Ht; cbn [negb];
      [|intros [= <-]; reflexivity].
    destruct (truthy_prop (text webhook)) eqn:Hx; cbn [negb];
      [|intros [= <-]; reflexivity].
    destruct (truthy_prop (id webhook)) eqn:Hi; cbn [negb];
      [discriminate | intros [= <-]; reflexivity].
  - rewrite (nonempty_falsy _ Hn). intros [= <-]. reflexivity.
Qed.

Lemma missing_field_valid (webhook : WebhookConfig) :
  missing_field webhook = None <-> valid webhook = true.
Proof.
  unfold missing_field, valid.
  destruct (truthy_prop (name webhook)), (truthy_prop (token webhook)),
    (truthy_prop (text webhook)), (truthy_prop (id webhook)); simpl;
    split; intros; congruence.
Qed.

Lemma missing_field_sound (webhook : WebhookConfig) (field : string) :
  missing_field webhook = Some field ->
  In field ["name"; "token"; "text"; "id"]
  /\ truthy_prop (required field webhook) = false.
Proof.
  unfold missing_field, required.
  destruct (truthy_prop (name webhook)) eqn:Hn; cbn [negb];
    [|intros [= <-]; simpl; auto].
  destruct (truthy_prop (token webhook)) eqn:Ht; cbn [negb];
    [|intros [= <-]; simpl; auto].
  destruct (truthy_prop (text webhook)) eqn:Hx; cbn [negb];
    [|intros [= <-]; simpl; auto].
  destruct (truthy_prop (id webhook)) eqn:Hi; cbn [negb];
    [discriminate | intros [= <-]; simpl; auto 6].
Qed.

(** The body of the loop never throws. *)
Lemma discover_one_returns (entry : option WebhookConfig) (p : Platform) :
  exists logs p', discover_one generate entry p = (logs, inr p').
Proof.
  destruct entry as [webhook|]; [|eexists; eexists; reflexivity].
  destruct (missing_field webhook) as [field|] eqn:Hm.
  - rewrite (discover_one_invalid webhook field p Hm). eauto.
  - apply missing_field_valid in Hm.
    destruct (find (fun a => UUID a =? generate (template (name webhook)))
                (accessories p)) as [known|] eqn:Hf.
    + rewrite (discover_one_existing webhook p known Hm Hf). eauto.
    + rewrite (discover_one_new webhook p Hm Hf). eauto.
Qed.

Lemma for_of_discover_returns (l : list (option WebhookConfig)) (p : Platform) :
  exists logs p', for_of (discover_one generate) l p = (logs, inr p').
Proof.
  revert p; induction l as [|entry l IH]; intros p; simpl.
  - eexists; eexists; reflexivity.
  - destruct (discover_one_returns entry p) as (l1 & p1 & E1). rewrite E1.
    destruct (IH p1) as (l2 & p2 & E2). unfold bind. rewrite E2. eauto.
Qed.

(** An entry that is skipped leaves the rest of the batch as it would be
    without it: same platform in the end, same log but for its diagnostic. *)
Lemma skipped_entry_isolated (entry : option WebhookConfig) (diag : list log_entry)
  (pre post : list (option WebhookConfig)) (p : Platform) :
  (forall q, discover_one generate entry q = (diag, inr q)) ->
  outcome (for_of (discover_one generate) (pre ++ entry :: post)%list p)
    = outcome (for_of (discover_one generate) (pre ++ post)%list p)
  /\ (exists p', outcome (for_of (discover_one generate) (pre ++ entry :: post)%list p) = inr p')
  /\ exists rest,
       logged (for_of (discover_one generate) (pre ++ post)%list p)
         = (logged (for_of (discover_one generate) pre p) ++ rest)%list
       /\ logged (for_of (discover_one generate) (pre ++ entry :: post)%list p)
         = (logged (for_of (discover_one generate) pre p) ++ diag ++ rest)%list.
Proof.
  intros Hskip. rewrite !for_of_app.
  destruct (for_of_discover_returns pre p) as (l1 & p1 & E1). rewrite E1.
  unfold bind at 1 2 3 4 5. cbn [for_of]. rewrite Hskip.
  unfold bind, outcome, logged.
  destruct (for_of_discover_returns post p1) as (l2 & p2 & E2). rewrite E2.
  cbn [fst snd]. split; [reflexivity|]. split; [eauto|].
  exists l2. split; reflexivity.
Qed.

(** Against an empty cache, every valid definition of a batch gets an entity
    of its own, registered on its own. *)
Lemma for_of_new_entities (l : list WebhookConfig) (p : Platform) :
  Forall (fun w => valid w = true) l ->
  accessories p = [] ->
  for_of (discover_one generate) (map Some l) p =
  (map (fun w => mkLog Info [LStr "Adding new accessory:"; LStr (template (name w))]) l,
   inr {| accessories := [];
          registered := (registered p
             ++ map (fun w => (PLUGIN_NAME, PLATFORM_NAME, [new_entity generate w])) l)%list;
          handlers := (handlers p
             ++ map (fun w => {| accessory := new_entity generate w;
                                 webhookConfig := w |}) l)%list |}).
Proof.
  intros Hall. revert p. induction Hall as [|w l Hw Hl IH]; intros p Hp.
  - simpl. rewrite !app_nil_r. destruct p; simpl in *; subst. reflexivity.
  - cbn [map for_of]. rewrite (discover_one_new w p Hw) by (rewrite Hp; reflexivity).
    unfold bind at 1. rewrite IH by (simpl; exact Hp).
    cbn [registered handlers]. rewrite <- !app_assoc. reflexivity.
Qed.

(** An accessory restored from the cache by [configureAccessory] is found
    again by [discoverDevices] under the identifier of its name: it is
    reused, and nothing is registered. *)
Lemma restored_accessory_reused (webhook : WebhookConfig)
  (cached : PlatformAccessory) :
  valid webhook = true ->
  UUID cached = generate (template (name webhook)) ->
  exists logs p1 p2,
    configureAccessory cached empty_platform = (logs, inr p1)
    /\ outcome (discoverDevices generate (Some [Some webhook]) p1) = inr p2
    /\ accessories p2 = [attach webhook (set_context webhook cached)]
    /\ registered p2 = [].
Proof.
  intros Hv Hu. eexists; eexists; eexists. split; [reflexivity|].
  cbn [discoverDevices for_of].
  rewrite (discover_one_existing webhook _ cached Hv).
  - cbn. rewrite Hu, String.eqb_refl. auto.
  - cbn. rewrite Hu, String.eqb_refl. reflexivity.
Qed.

(** C6.  A declared definition that lacks [name], [token], [text] or [id]
    is skipped: an error names the first field that is missing, and the
    definition by its name when the name is there; the platform is left as
    it was, and the definitions before and after it in the batch are
    processed as they would be without it. *)
Theorem invalid_definition_skipped (webhook : WebhookConfig)
  (pre post : list (option WebhookConfig)) (p : Platform)
  (Hinvalid : valid webhook = false) :
  exists field,
    missing_field webhook = Some field
    /\ In field ["name"; "token"; "text"; "id"]
    /\ truthy_prop (required field webhook) = false
    /\ (forall q, discover_one generate (Some webhook) q =
          (mkLog Err [LStr (missing_message webhook field)] :: hints field, inr q))
    /\ outcome (discoverDevices generate (Some (pre ++ Some webhook :: post)%list) p)
       = outcome (discoverDevices generate (Some (pre ++ post)%list) p)
    /\ (exists p',
          outcome (discoverDevices generate (Some (pre ++ Some webhook :: post)%list) p)
          = inr p')
    /\ exists rest,
         logged (discoverDevices generate (Some (pre ++ post)%list) p)
           = (logged (discoverDevices generate (Some pre) p) ++ rest)%list
         /\ logged (discoverDevices generate (Some (pre ++ Some webhook :: post)%list) p)
           = (logged (discoverDevices generate (Some pre) p)
              ++ (mkLog Err [LStr (missing_message webhook field)] :: hints field)
              ++ rest)%list.
Proof.
  destruct (missing_field webhook) as [field|] eqn:Hm.
  - exists field. destruct (missing_field_sound webhook field Hm) as [Hin Hf].
    repeat (split; [assumption || reflexivity|]).
    split; [intros q; apply discover_one_invalid; exact Hm|].
    cbn [discoverDevices]. apply skipped_entry_isolated.
    intros q. apply discover_one_invalid. exact Hm.
  - apply missing_field_valid in Hm. congruence.
Qed.

(** C7.  For a valid definition: against an empty cache exactly one entity
    is created, with the identifier generated from the name, the name as
    display name and the definition in its context, and it is registered
    once, in a call of its own; a batch of valid definitions against an
    empty cache makes one registration call per definition.  Against a cache
    that holds an accessory of that identifier, the first such accessory is
    the one reused: at its place in the cache stands an accessory that has
    the new definition in its context, the same identifier and display
    name, the contact sensor service, and every characteristic of the
    cached one that the constructor does not write; the accessories before
    and after it are as they were; the handler is bound to it; nothing is
    registered. *)
Theorem reconcile_valid_definition (webhook : WebhookConfig)
  (Hvalid : valid webhook = true) :
  (forall p, accessories p = [] ->
     exists entity,
       discoverDevices generate (Some [Some webhook]) p =
         ([mkLog Info [LStr "Adding new accessory:"; LStr (template (name webhook))]],
          inr {| accessories := [];
                 registered := (registered p
                    ++ [(PLUGIN_NAME, PLATFORM_NAME, [entity])])%list;
                 handlers := (handlers p
                    ++ [{| accessory := entity; webhookConfig := webhook |}])%list |})
       /\ UUID entity = generate (template (name webhook))
       /\ name webhook = Some (displayName entity)
       /\ context_webhook entity = Some webhook)
  /\ (forall l p, Forall (fun w => valid w = true) l -> accessories p = [] ->
        exists logs p',
          discoverDevices generate (Some (map Some l)) p = (logs, inr p')
          /\ accessories p' = []
          /\ length (registered p') = length (registered p) + length l
          /\ map context_webhook (registered_accessories p')
             = (map context_webhook (registered_accessories p) ++ map Some l)%list
          /\ map UUID (registered_accessories p')
             = (map UUID (registered_accessories p)
                ++ map (fun w => generate (template (name w))) l)%list)
  /\ (forall p known,
        find (fun a => UUID a =? generate (template (name webhook))) (accessories p)
          = Some known ->
        exists before after entity p',
          accessories p = (before ++ known :: after)%list
          /\ Forall (fun a => UUID a <> generate (template (name webhook))) before
          /\ discoverDevices generate (Some [Some webhook]) p =
               ([mkLog Info [LStr "Restoring existing accessory from cache:";
                             LStr (displayName known)]],
                inr p')
          /\ accessories p' = (before ++ entity :: after)%list
          /\ registered p' = registered p
          /\ handlers p' =
             (handlers p ++ [{| accessory := entity; webhookConfig := webhook |}])%list
          /\ find (fun a => UUID a =? generate (template (name webhook)))
               (accessories p') = Some entity
          /\ context_webhook entity = Some webhook
          /\ UUID entity = UUID known
          /\ UUID entity = generate (template (name webhook))
          /\ displayName entity = displayName known
          /\ (forall c, c <> "Manufacturer" -> c <> "Model" -> c <> "SerialNumber" ->
                getCharacteristic c (AccessoryInformation entity)
                = getCharacteristic c (AccessoryInformation known))
          /\ (exists service,
                ContactSensor entity = Some service
                /\ forall old c, ContactSensor known = Some old ->
                     c <> "Name" -> c <> "ContactSensorState" ->
                     getCharacteristic c service = getCharacteristic c old)).
Proof.
  destruct (valid_fields _ Hvalid) as (Hn & _).
  destruct (truthy_prop_some _ Hn) as (n & En & _).
  split; [|split].
  - intros p Hp. cbn [discoverDevices for_of].
    rewrite (discover_one_new webhook p Hvalid) by (rewrite Hp; reflexivity).
    unfold bind, ret. rewrite Hp.
    exists (new_entity generate webhook).
    rewrite !app_nil_r. split; [reflexivity|].
    cbn. rewrite En. auto.
  - intros l p Hl Hp. cbn [discoverDevices].
    rewrite (for_of_new_entities l p Hl Hp).
    eexists; eexists. split; [reflexivity|].
    unfold registered_accessories. cbn [accessories registered].
    split; [reflexivity|].
    split; [rewrite length_app, length_map; reflexivity|].
    rewrite !map_app, !concat_app, !map_app.
    split; f_equal; clear; induction l as [|w l IH]; simpl; congruence.
  - intros p known Hf. cbn [discoverDevices for_of].
    rewrite (discover_one_existing webhook p known Hvalid Hf).
    unfold bind, ret.
    destruct (find_first_split _ (attach webhook (set_context webhook known)) _ _ Hf)
      as (before & after & El & Hb & Hk & Er).
    apply String.eqb_eq in Hk.
    assert (Hb' : Forall (fun a => UUID a <> generate (template (name webhook))) before).
    { eapply Forall_impl; [|exact Hb]. cbn. intros a Ha. apply String.eqb_neq. exact Ha. }
    exists before, after, (attach webhook (set_context webhook known)).
    eexists. split; [exact El|]. split; [exact Hb'|].
    rewrite !app_nil_r. split; [reflexivity|].
    cbn [accessories registered handlers]. rewrite Er.
    split; [reflexivity|]. split; [reflexivity|]. split; [reflexivity|].
    split.
    { apply find_after_misses; [exact Hb|]. cbn. apply String.eqb_eq. exact Hk. }
    split; [reflexivity|]. split; [reflexivity|].
    split; [exact Hk|]. split; [reflexivity|].
    cbn [attach set_context AccessoryInformation ContactSensor].
    split.
    + intros c H1 H2 H3. rewrite !get_set_other by congruence. reflexivity.
    + eexists. split; [reflexivity|].
      intros old c Hold H1 H2. rewrite Hold. unfold updateCharacteristic.
      rewrite !get_set_other by congruence. reflexivity.
Qed.

(** C9 fails on the code.  Two valid definitions of one name, declared in
    one batch against an empty cache: both take the path of a new
    accessory, since an accessory that has just been created is not added
    to the platform's array, and two entities of one identifier are created
    and registered. *)
Theorem duplicate_name_registered_twice (webhook : WebhookConfig)
  (Hvalid : valid webhook = true) :
  exists logs p',
    discoverDevices generate (Some [Some webhook; Some webhook]) empty_platform
      = (logs, inr p')
    /\ registered p' =
         [(PLUGIN_NAME, PLATFORM_NAME, [new_entity generate webhook]);
          (PLUGIN_NAME, PLATFORM_NAME, [new_entity generate webhook])]
    /\ map UUID (registered_accessories p') =
         [generate (template (name webhook)); generate (template (name webhook))]
    /\ length (handlers p') = 2.
Proof.
  cbn [discoverDevices].
  change [Some webhook; Some webhook] with (map Some [webhook; webhook]).
  rewrite (for_of_new_entities [webhook; webhook] empty_platform)
    by (repeat constructor; assumption).
  eexists; eexists. split; [reflexivity|].
  repeat split.
Qed.

(** C10.  Validation goes by truthiness: a definition whose [name],
    [token], [text] or [id] is the empty string is handled exactly as the
    same definition without that field, and is skipped; a [null] or
    [undefined] entry of the array is skipped with a warning, and the
    entries before and after it are processed as they would be without
    it. *)
Theorem validation_by_truthiness (webhook : WebhookConfig)
  (pre post : list (option WebhookConfig)) (p : Platform) :
  (discover_one generate (Some (with_name (Some "") webhook)) p
     = discover_one generate (Some (with_name None webhook)) p
   /\ outcome (discover_one generate (Some (with_name (Some "") webhook)) p) = inr p)
  /\ (discover_one generate (Some (with_token (Some "") webhook)) p
        = discover_one generate (Some (with_token None webhook)) p
      /\ outcome (discover_one generate (Some (with_token (Some "") webhook)) p) = inr p)
  /\ (discover_one generate (Some (with_text (Some "") webhook)) p
        = discover_one generate (Some (with_text None webhook)) p
      /\ outcome (discover_one generate (Some (with_text (Some "") webhook)) p) = inr p)
  /\ (discover_one generate (Some (with_id (Some "") webhook)) p
        = discover_one generate (Some (with_id None webhook)) p
      /\ outcome (discover_one generate (Some (with_id (Some "") webhook)) p) = inr p)
  /\ discover_one generate None p =
       ([mkLog Warn [LStr "Skipping null or undefined webhook entry in configuration"]],
        inr p)
  /\ outcome (discoverDevices generate (Some (pre ++ None :: post)%list) p)
     = outcome (discoverDevices generate (Some (pre ++ post)%list) p)
  /\ (exists p',
        outcome (discoverDevices generate (Some (pre ++ None :: post)%list) p) = inr p')
  /\ exists rest,
       logged (discoverDevices generate (Some (pre ++ post)%list) p)
         = (logged (discoverDevices generate (Some pre) p) ++ rest)%list
       /\ logged (discoverDevices generate (Some (pre ++ None :: post)%list) p)
         = (logged (discoverDevices generate (Some pre) p)
            ++ [mkLog Warn
                  [LStr "Skipping null or undefined webhook entry in configuration"]]
            ++ rest)%list.
Proof.
  assert (Hskip : forall (w : WebhookConfig) q, valid w = false ->
            outcome (discover_one generate (Some w) q) = inr q).
  { intros w q Hw. destruct (missing_field w) as [field|] eqn:Hm.
    - rewrite (discover_one_invalid w field q Hm). reflexivity.
    - apply missing_field_valid in Hm. congruence. }
  split; [split; [reflexivity|apply Hskip; reflexivity]|].
  split; [split; [reflexivity|apply Hskip; unfold valid; cbn;
                               now rewrite andb_false_r]|].
  split; [split; [reflexivity|apply Hskip; unfold valid; cbn;
                               now rewrite andb_false_r]|].
  split; [split; [reflexivity|apply Hskip; unfold valid; cbn;
                               now rewrite andb_false_r]|].
  split; [reflexivity|].
  cbn [discoverDevices]. apply skipped_entry_isolated.
  intros q. reflexivity.
Qed.

End RegistryProperties.

(** The same on the definition of the specification's example, with a
    generator that prefixes the name. *)
Lemma invalid_definition_skipped_witness :
  valid (with_token None example_config) = false
  /\ exists field,
       missing_field (with_token None example_config) = Some field
       /\ missing_message (with_token None example_config) field
          = "Webhook " ++ quoted "Front Door Alert" ++ " is missing token"
       /\ outcome (discoverDevices (fun n => "uuid:" ++ n)
            (Some [Some (with_token None example_config); Some example_config])
            empty_platform)
          = outcome (discoverDevices (fun n => "uuid:" ++ n)
              (Some [Some example_config]) empty_platform).
Proof.
  split; [reflexivity|].
  destruct (invalid_definition_skipped (fun n => "uuid:" ++ n)
              (with_token None example_config)
              [] [Some example_config] empty_platform eq_refl)
    as (field & Hm & _ & _ & _ & Hout & _).
  exists field. split; [exact Hm|]. split; [|exact Hout].
  cbv in Hm. injection Hm as <-. reflexivity.
Defined.

(** Both halves on the example definition.  Against the empty cache one
    entity is registered.  Against the example cache, where the accessory of
    that name stands second, after an accessory of another name: nothing is
    registered, the first accessory is as it was, and the second now holds
    the definition in its context. *)
Lemma reconcile_valid_definition_witness :
  valid example_config = true
  /\ (exists entity,
        discoverDevices example_generate (Some [Some example_config]) empty_platform =
          ([mkLog Info [LStr "Adding new accessory:"; LStr "Front Door Alert"]],
           inr {| accessories := [];
                  registered := [(PLUGIN_NAME, PLATFORM_NAME, [entity])];
                  handlers := [{| accessory := entity;
                                  webhookConfig := example_config |}] |})
        /\ UUID entity = "uuid:Front Door Alert"
        /\ name example_config = Some (displayName entity)
        /\ context_webhook entity = Some example_config)
  /\ find (fun a => UUID a =? "uuid:Front Door Alert") (accessories example_cache)
     = Some (platformAccessory "Front Door Alert" "uuid:Front Door Alert")
  /\ exists entity p',
       outcome (discoverDevices example_generate (Some [Some example_config])
                  example_cache) = inr p'
       /\ accessories p' = [garage_accessory; entity]
       /\ registered p' = []
       /\ handlers p' = [{| accessory := entity; webhookConfig := example_config |}]
       /\ context_webhook entity = Some example_config
       /\ UUID entity = "uuid:Front Door Alert"
       /\ displayName entity = "Front Door Alert".
Proof.
  split; [reflexivity|].
  destruct (reconcile_valid_definition example_generate example_config eq_refl)
    as (Hnew & _ & Hknown).
  split.
  { destruct (Hnew empty_platform eq_refl) as (entity & E & Hu & Hd & Hc).
    exists entity. repeat split; assumption. }
  split; [reflexivity|].
  destruct (Hknown example_cache
              (platformAccessory "Front Door Alert" "uuid:Front Door Alert") eq_refl)
    as (before & after & entity & p' & El & Hb & E & Ha & Hr & Hh & _ & Hc
        & Hu & _ & Hd & _).
  exists entity, p'. rewrite E.
  split; [reflexivity|].
  split; [|repeat split; assumption].
  unfold example_cache in El. cbn [accessories] in El.
  destruct before as [|a0 [|a1 before]]; cbn [app] in El.
  - discriminate El.
  - injection El as <- <-. exact Ha.
  - exfalso. injection El as _ _ El. destruct before; discriminate El.
Defined.

Lemma duplicate_name_registered_twice_witness :
  valid example_config = true
  /\ exists logs p',
    discoverDevices (fun n => "uuid:" ++ n)
      (Some [Some example_config; Some example_config]) empty_platform
      = (logs, inr p')
    /\ map UUID (registered_accessories p') =
         ["uuid:Front Door Alert"; "uuid:Front Door Alert"].
Proof.
  split; [reflexivity|].
  destruct (duplicate_name_registered_twice (fun n => "uuid:" ++ n)
              example_config eq_refl)
    as (logs & p' & E & _ & Hu & _).
  exists logs, p'. split; [exact E | exact Hu].
Defined.

(* ================================================================= *)
(** ** The event loop *)

Section EventLoop.

Variable cfg : WebhookConfig.

Local Open Scope Z_scope.

(** *** Each handler, as what it adds to the world *)

Lemma emit_logs_eq (l : list log_entry) (w : world) :
  emit_logs l w =
  {| clock := clock w; next_request := next_request w; awaiting := awaiting w;
     timers := timers w;
     trace := (trace w ++ map (fun e => (clock w, ELog e)) l)%list |}.
Proof.
  unfold emit_logs. revert w; induction l as [|e l IH]; intros w; cbn [fold_left map].
  - rewrite app_nil_r. destruct w; reflexivity.
  - rewrite IH. unfold emit; cbn. rewrite <- app_assoc. reflexivity.
Qed.

Lemma setContactState_settled_eq (r : M jsval) (w : world) :
  setContactState_settled cfg r w =
  {| clock := clock w; next_request := next_request w; awaiting := awaiting w;
     timers := (timers w ++ [clock w + 1000])%list;
     trace := (trace w ++ map (fun e => (clock w, ELog e)) (logged r)
               ++ [(clock w, ELog (outcome_entry cfg (outcome r)));
                   (clock w, ESetTimeout 1000)])%list |}.
Proof.
  unfold setContactState_settled, setTimeout. rewrite emit_logs_eq.
  unfold outcome_entry. destruct (outcome r); unfold emit; cbn;
    rewrite <- !app_assoc; reflexivity.
Qed.

Lemma setContactState_open_eq (tok : string) (value : CharacteristicValue)
  (w : world) :
  token cfg = Some tok ->
  strict_eq_num value CONTACT_NOT_DETECTED = true ->
  setContactState cfg value w =
  {| clock := clock w; next_request := S (next_request w);
     awaiting := (awaiting w ++ [(next_request w, request_for cfg)])%list;
     timers := timers w;
     trace := (trace w
       ++ (clock w, ELog (mkLog Info
            [LStr ("Contact sensor opened, triggering webhook: "
                   ++ template (name cfg))]))
          :: map (fun e => (clock w, ELog e)) (request_logs cfg tok)
       ++ [(clock w, EPost (next_request w) (request_for cfg))])%list |}.
Proof.
  intros Ht Hv. unfold setContactState. rewrite Hv.
  rewrite (request_of_valid cfg tok Ht). rewrite emit_logs_eq.
  unfold emit; cbn. rewrite <- !app_assoc. reflexivity.
Qed.

Lemma setContactState_other_eq (value : CharacteristicValue) (w : world) :
  strict_eq_num value CONTACT_NOT_DETECTED = false ->
  setContactState cfg value w = w.
Proof.
  intros Hv. unfold setContactState. rewrite Hv. reflexivity.
Qed.

Lemma fire_eq (c : Z) (ds : list Z) (w : world) :
  at_time c (fold_left (fun w d => auto_close cfg (at_time d w)) ds w) =
  {| clock := c; next_request := next_request w; awaiting := awaiting w;
     timers := timers w;
     trace := (trace w ++ flat_map (auto_close_trace cfg) ds)%list |}.
Proof.
  revert w; induction ds as [|d ds IH]; intros w; cbn [fold_left flat_map].
  - rewrite app_nil_r. reflexivity.
  - rewrite IH. unfold auto_close, emit, at_time, auto_close_trace; cbn.
    rewrite <- !app_assoc. reflexivity.
Qed.

Lemma advance_eq (t : Z) (w : world) :
  advance cfg t w =
  {| clock := Z.max (clock w) t; next_request := next_request w;
     awaiting := awaiting w;
     timers := filter (fun d => negb (due t d)) (timers w);
     trace := (trace w
               ++ flat_map (auto_close_trace cfg) (filter (due t) (timers w)))%list |}.
Proof.
  unfold advance. rewrite fire_eq. reflexivity.
Qed.

(** *** Reading a trace that has grown *)

Lemma times_of_grown (p : effect -> bool) (w w' : world) (more : list (Z * effect)) :
  trace w' = (trace w ++ more)%list ->
  times_of p w' = (times_of p w ++ map fst (filter (fun te => p (snd te)) more))%list.
Proof.
  intros E. unfold times_of. rewrite E, filter_app, map_app. reflexivity.
Qed.

Lemma filter_logs (p : effect -> bool) (c : Z) (l : list log_entry) :
  (forall e, p (ELog e) = false) ->
  filter (fun te => p (snd te)) (map (fun e => (c, ELog e)) l) = [].
Proof.
  intros Hp. induction l as [|e l IH]; cbn; [reflexivity|].
  rewrite Hp. exact IH.
Qed.

Lemma filter_closes (p : effect -> bool) (ds : list Z) :
  (forall e, p (ELog e) = false) ->
  map fst (filter (fun te => p (snd te)) (flat_map (auto_close_trace cfg) ds))
  = if p (EUpdate CONTACT_DETECTED) then ds else [].
Proof.
  intros Hp. induction ds as [|d ds IH]; cbn.
  - destruct (p (EUpdate CONTACT_DETECTED)); reflexivity.
  - rewrite Hp. destruct (p (EUpdate CONTACT_DETECTED)); cbn; rewrite IH; reflexivity.
Qed.

Lemma times_of_advance (p : effect -> bool) (t : Z) (w : world) :
  (forall e, p (ELog e) = false) ->
  times_of p (advance cfg t w) =
  (times_of p w
   ++ if p (EUpdate CONTACT_DETECTED) then filter (due t) (timers w) else [])%list.
Proof.
  intros Hp. rewrite (times_of_grown p w _ _ (f_equal trace (advance_eq t w))).
  rewrite (filter_closes p _ Hp). reflexivity.
Qed.

Lemma times_of_settled (p : effect -> bool) (r : M jsval) (w : world) :
  (forall e, p (ELog e) = false) ->
  times_of p (setContactState_settled cfg r w) =
  (times_of p w ++ if p (ESetTimeout 1000) then [clock w] else [])%list.
Proof.
  intros Hp.
  rewrite (times_of_grown p w _ _ (f_equal trace (setContactState_settled_eq r w))).
  rewrite filter_app, (filter_logs p _ _ Hp). cbn. rewrite Hp.
  destruct (p (ESetTimeout 1000)); reflexivity.
Qed.

Lemma times_of_open (p : effect -> bool) (tok : string)
  (value : CharacteristicValue) (w : world) :
  (forall e, p (ELog e) = false) ->
  token cfg = Some tok ->
  strict_eq_num value CONTACT_NOT_DETECTED = true ->
  times_of p (setContactState cfg value w) =
  (times_of p w
   ++ if p (EPost (next_request w) (request_for cfg)) then [clock w] else [])%list.
Proof.
  intros Hp Ht Hv.
  rewrite (times_of_grown p w _ _
             (f_equal trace (setContactState_open_eq tok value w Ht Hv))).
  cbn [filter snd]. rewrite Hp.
  rewrite filter_app, (filter_logs p _ _ Hp). cbn.
  destruct (p (EPost (next_request w) (request_for cfg))); reflexivity.
Qed.

(** *** Sorted lists of deadlines *)

Lemma filter_none {A} (f : A -> bool) (l : list A) :
  Forall (fun x => f x = false) l -> filter f l = [].
Proof.
  induction 1 as [|x l Hx _ IH]; cbn; [reflexivity|]. rewrite Hx. exact IH.
Qed.

Lemma filter_all {A} (f : A -> bool) (l : list A) :
  Forall (fun x => f x = true) l -> filter f l = l.
Proof.
  induction 1 as [|x l Hx _ IH]; cbn; [reflexivity|]. rewrite Hx, IH. reflexivity.
Qed.

Lemma sorted_partition (t : Z) (l : list Z) :
  StronglySorted Z.le l ->
  (filter (due t) l ++ filter (fun d => negb (due t d)) l)%list = l.
Proof.
  induction 1 as [|x l _ IH Hx]; [reflexivity|].
  cbn [filter]. destruct (due t x) eqn:Hd; cbn [negb app].
  - f_equal. exact IH.
  - unfold due in Hd.
    rewrite filter_none, filter_all; [reflexivity| |];
      (eapply Forall_impl; [|exact Hx]); cbn; intros d Hle; unfold due;
      destruct (Z.leb_spec d t); cbn; try reflexivity; lia.
Qed.

Lemma sorted_filter (f : Z -> bool) (l : list Z) :
  StronglySorted Z.le l -> StronglySorted Z.le (filter f l).
Proof.
  induction 1 as [|x l _ IH Hx]; cbn; [constructor|].
  destruct (f x); [|exact IH]. constructor; [exact IH|].
  rewrite Forall_forall in *. intros d Hd. apply filter_In in Hd. apply Hx, Hd.
Qed.

Lemma sorted_snoc (l : list Z) (x : Z) :
  StronglySorted Z.le l -> Forall (fun d => d <= x) l ->
  StronglySorted Z.le (l ++ [x]).
Proof.
  induction 1 as [|y l _ IH Hy]; intros Hl; cbn.
  - repeat constructor.
  - inversion Hl; subst. constructor; [apply IH; assumption|].
    apply Forall_app. split; [exact Hy | repeat constructor; assumption].
Qed.

(** *** The invariant of the timers *)

Lemma init_ok : timers_ok init.
Proof.
  constructor; cbn; constructor.
Qed.

Lemma advance_ok (t : Z) (w : world) :
  timers_ok w -> clock w <= t -> timers_ok (advance cfg t w).
Proof.
  intros [Hacc Hsort Hpend Hpast] Hle.
  assert (Hclock : clock (advance cfg t w) = t)
    by (rewrite advance_eq; cbn; lia).
  assert (Htimers : timers (advance cfg t w)
                    = filter (fun d => negb (due t d)) (timers w))
    by (rewrite advance_eq; reflexivity).
  constructor.
  - unfold resets, armed. rewrite !times_of_advance by (intros; reflexivity).
    cbn [is_update is_timeout]. rewrite app_nil_r, Htimers, <- app_assoc.
    rewrite (sorted_partition t _ Hsort). exact Hacc.
  - rewrite Htimers. apply sorted_filter, Hsort.
  - rewrite Htimers, Hclock. rewrite Forall_forall in *.
    intros d Hd. apply filter_In in Hd. destruct Hd as [Hin Hdue].
    specialize (Hpend d Hin). unfold due in Hdue.
    destruct (Z.leb_spec d t); [discriminate | lia].
  - unfold resets. rewrite times_of_advance by (intros; reflexivity).
    cbn [is_update]. rewrite Hclock. apply Forall_app. split.
    + eapply Forall_impl; [|exact Hpast]. cbn. intros; lia.
    + rewrite Forall_forall. intros d Hd. apply filter_In in Hd.
      destruct Hd as [_ Hdue]. unfold due in Hdue. lia.
Qed.

Lemma settled_ok (r : M jsval) (w : world) :
  timers_ok w -> timers_ok (setContactState_settled cfg r w).
Proof.
  intros [Hacc Hsort Hpend Hpast].
  assert (Hclock : clock (setContactState_settled cfg r w) = clock w)
    by (rewrite setContactState_settled_eq; reflexivity).
  assert (Htimers : timers (setContactState_settled cfg r w)
                    = (timers w ++ [clock w + 1000])%list)
    by (rewrite setContactState_settled_eq; reflexivity).
  constructor.
  - unfold resets, armed. rewrite !times_of_settled by (intros; reflexivity).
    cbn [is_update is_timeout]. rewrite app_nil_r, Htimers, app_assoc, map_app.
    unfold resets, armed in Hacc. rewrite Hacc. reflexivity.
  - rewrite Htimers. apply sorted_snoc; [exact Hsort|].
    eapply Forall_impl; [|exact Hpend]. cbn. intros; lia.
  - rewrite Htimers, Hclock. apply Forall_app. split; [exact Hpend|].
    repeat constructor; lia.
  - unfold resets. rewrite times_of_settled by (intros; reflexivity).
    cbn [is_update]. rewrite app_nil_r, Hclock. exact Hpast.
Qed.

Lemma unchanged_ok (w w' : world) :
  timers_ok w -> clock w' = clock w -> timers w' = timers w ->
  resets w' = resets w -> armed w' = armed w -> timers_ok w'.
Proof.
  intros [Hacc Hsort Hpend Hpast] Hc Ht Hr Ha.
  constructor; rewrite ?Hc, ?Ht, ?Hr, ?Ha; assumption.
Qed.

Lemma open_ok (tok : string) (value : CharacteristicValue) (w : world) :
  token cfg = Some tok -> timers_ok w -> timers_ok (setContactState cfg value w).
Proof.
  intros Ht Hok.
  destruct (strict_eq_num value CONTACT_NOT_DETECTED) eqn:Hv.
  - apply (unchanged_ok w); [exact Hok| | | |].
    + rewrite (setContactState_open_eq tok value w Ht Hv). reflexivity.
    + rewrite (setContactState_open_eq tok value w Ht Hv). reflexivity.
    + unfold resets. rewrite (times_of_open _ tok value w) by auto.
      cbn [is_update]. apply app_nil_r.
    + unfold armed. rewrite (times_of_open _ tok value w) by auto.
      cbn [is_timeout]. apply app_nil_r.
  - rewrite (setContactState_other_eq value w Hv). exact Hok.
Qed.

(** *** One input, then a whole schedule *)

Lemma pending_request_found (k : nat) (w : world) :
  existsb (fun j => Nat.eqb j k) (map fst (awaiting w)) = true ->
  exists req, pending_request k w = Some req.
Proof.
  unfold pending_request. induction (awaiting w) as [|[j r] l IH]; cbn.
  - discriminate.
  - destruct (Nat.eqb j k); cbn; [eauto | exact IH].
Qed.

Lemma awaiting_resume (k : nat) (w : world) :
  map fst (awaiting (resume k w))
  = filter (fun j => negb (Nat.eqb j k)) (map fst (awaiting w)).
Proof.
  unfold resume; cbn. induction (awaiting w) as [|[j r] l IH]; cbn.
  - reflexivity.
  - destruct (Nat.eqb j k); cbn; [exact IH | rewrite IH; reflexivity].
Qed.

Lemma step_spec (tok : string) (w : world) (t : Z) (i : input) :
  token cfg = Some tok ->
  timers_ok w -> clock w <= t ->
  (forall k tr, i = Settle k tr ->
     existsb (fun j => Nat.eqb j k) (map fst (awaiting w)) = true) ->
  let w' := step cfg w (t, i) in
  timers_ok w' /\ clock w' = t
  /\ next_request w' = (if is_opening i then S (next_request w) else next_request w)
  /\ map fst (awaiting w') =
       match i with
       | Activate _ =>
           if is_opening i then (map fst (awaiting w) ++ [next_request w])%list
           else map fst (awaiting w)
       | Query => map fst (awaiting w)
       | Settle k _ => filter (fun j => negb (Nat.eqb j k)) (map fst (awaiting w))
       end
  /\ posts w' = (posts w ++ if is_opening i then [t] else [])%list
  /\ armed w' = (armed w ++ if is_settlement i then [t] else [])%list
  /\ resets w' = (resets w ++ filter (due t) (timers w))%list.
Proof.
  intros Ht Hok Hle Hk. cbv zeta. unfold step. cbn [fst snd].
  pose proof (advance_ok t w Hok Hle) as Hok1.
  assert (Hc1 : clock (advance cfg t w) = t) by (rewrite advance_eq; cbn; lia).
  assert (Hn1 : next_request (advance cfg t w) = next_request w)
    by (rewrite advance_eq; reflexivity).
  assert (Ha1 : awaiting (advance cfg t w) = awaiting w)
    by (rewrite advance_eq; reflexivity).
  assert (Hp1 : posts (advance cfg t w) = posts w).
  { unfold posts. rewrite times_of_advance by (intros; reflexivity).
    apply app_nil_r. }
  assert (Hm1 : armed (advance cfg t w) = armed w).
  { unfold armed. rewrite times_of_advance by (intros; reflexivity).
    apply app_nil_r. }
  assert (Hr1 : resets (advance cfg t w)
                = (resets w ++ filter (due t) (timers w))%list).
  { unfold resets. rewrite times_of_advance by (intros; reflexivity).
    reflexivity. }
  set (w1 := advance cfg t w) in *.
  destruct i as [value| |k tr]; cbn [is_opening is_settlement].
  - destruct (strict_eq_num value CONTACT_NOT_DETECTED) eqn:Hv.
    + split; [apply (open_ok tok); assumption|].
      unfold posts, armed, resets.
      rewrite !(times_of_open _ tok value w1) by auto.
      rewrite (setContactState_open_eq tok value w1 Ht Hv).
      cbn [clock next_request awaiting is_post is_timeout is_update].
      rewrite map_app, Hc1, Hn1, Ha1, !app_nil_r.
      fold (posts w1) (armed w1) (resets w1). rewrite Hp1, Hm1, Hr1.
      repeat split; reflexivity.
    + rewrite (setContactState_other_eq value w1 Hv).
      rewrite Hc1, Hn1, Ha1, Hp1, Hm1, Hr1, !app_nil_r.
      split; [assumption|]. repeat split; reflexivity.
  - split.
    + apply (unchanged_ok w1); [assumption|reflexivity|reflexivity| |].
      * unfold resets, times_of. cbn. rewrite filter_app, map_app. cbn.
        apply app_nil_r.
      * unfold armed, times_of. cbn. rewrite filter_app, map_app. cbn.
        apply app_nil_r.
    + unfold posts, armed, resets, times_of. cbn [emit clock next_request awaiting trace].
      rewrite !filter_app, !map_app. cbn [filter map snd is_post is_timeout is_update].
      rewrite !app_nil_r. fold (times_of is_post w1) (times_of is_timeout w1)
        (times_of is_update w1). fold (posts w1) (armed w1) (resets w1).
      rewrite Hc1, Hn1, Ha1, Hp1, Hm1, Hr1. repeat split; reflexivity.
  - destruct (pending_request_found k w1) as [req Hreq].
    { rewrite Ha1. apply (Hk k tr). reflexivity. }
    rewrite Hreq.
    assert (Hokr : timers_ok (resume k w1))
      by (apply (unchanged_ok w1); [assumption|reflexivity..]).
    split; [apply settled_ok; exact Hokr|].
    unfold posts, armed, resets. rewrite !times_of_settled by (intros; reflexivity).
    rewrite setContactState_settled_eq.
    cbn [clock next_request awaiting is_post is_timeout is_update].
    rewrite !app_nil_r.
    change (awaiting (resume k w1)) with
      (filter (fun kr => negb (Nat.eqb (fst kr) k)) (awaiting w1)).
    pose proof (awaiting_resume k w1) as Hres. cbn [resume awaiting] in Hres.
    rewrite Hres.
    change (times_of is_post (resume k w1)) with (posts w1).
    change (times_of is_timeout (resume k w1)) with (armed w1).
    change (times_of is_update (resume k w1)) with (resets w1).
    change (clock (resume k w1)) with (clock w1).
    change (next_request (resume k w1)) with (next_request w1).
    rewrite Hc1, Hn1, Ha1, Hp1, Hm1, Hr1. repeat split; reflexivity.
Qed.

Lemma run_spec (tok : string) (evs : list (Z * input)) :
  token cfg = Some tok ->
  forall w, timers_ok w ->
  well_formed (clock w) (next_request w) (map fst (awaiting w)) evs = true ->
  timers_ok (run cfg evs w)
  /\ posts (run cfg evs w) = (posts w ++ activations evs)%list
  /\ armed (run cfg evs w) = (armed w ++ settlements evs)%list.
Proof.
  intros Ht. induction evs as [|[t i] evs IH]; intros w Hok Hwf.
  - cbn. rewrite !app_nil_r. auto.
  - cbn [well_formed] in Hwf. apply andb_true_iff in Hwf. destruct Hwf as [Hle Hwf].
    apply Z.leb_le in Hle.
    assert (Hk : forall k tr, i = Settle k tr ->
               existsb (fun j => Nat.eqb j k) (map fst (awaiting w)) = true).
    { intros k tr ->. apply andb_true_iff in Hwf. apply Hwf. }
    destruct (step_spec tok w t i Ht Hok Hle Hk)
      as (Hok' & Hc & Hn & Ha & Hp & Hm & _).
    cbn [run fold_left]. fold (run cfg evs (step cfg w (t, i))).
    destruct (IH (step cfg w (t, i)) Hok') as (Hok'' & Hp' & Hm').
    { rewrite Hc, Hn, Ha. destruct i as [value| |k tr]; cbn [is_opening] in *.
      - destruct (strict_eq_num value CONTACT_NOT_DETECTED); exact Hwf.
      - exact Hwf.
      - apply andb_true_iff in Hwf. apply Hwf. }
    split; [exact Hok''|].
    rewrite Hp', Hm', Hp, Hm, <- !app_assoc.
    unfold activations, settlements. cbn [filter snd fst].
    destruct (is_opening i), (is_settlement i); cbn [map fst app]; auto.
Qed.

(** *** What a run adds to the trace *)

Lemma forall_logs (P : Z * effect -> Prop) (c : Z) (l : list log_entry) :
  (forall e, P (c, ELog e)) -> Forall P (map (fun e => (c, ELog e)) l).
Proof.
  intros HP. induction l; cbn; constructor; auto.
Qed.

Lemma request_is_request_for (logs : list log_entry) (req : Request) :
  sendNotification_request cfg = (logs, inr req) -> req = request_for cfg.
Proof.
  unfold sendNotification_request, request_for.
  destruct (token cfg) as [tok|]; cbn; intros [= _ <-]; reflexivity.
Qed.

(** Every input adds to the trace only effects of the expected kinds. *)
Lemma step_grows (P : Z * effect -> Prop) (w : world) (ev : Z * input) :
  (forall c e, P (c, ELog e)) ->
  (forall c k, P (c, EPost k (request_for cfg))) ->
  (forall c, P (c, ESetTimeout 1000)) ->
  (forall c, P (c, EUpdate CONTACT_DETECTED)) ->
  (forall c, P (c, EAnswer CONTACT_DETECTED)) ->
  (exists more,
     trace (advance cfg (fst ev) w) = (trace w ++ more)%list /\ Forall P more)
  /\ exists more,
       trace (step cfg w ev) = (trace w ++ more)%list /\ Forall P more.
Proof.
  intros Plog Ppost Ptimeout Pupdate Panswer.
  destruct ev as [t i]. unfold step. cbn [fst snd].
  assert (Hadv : exists more,
            trace (advance cfg t w) = (trace w ++ more)%list /\ Forall P more).
  { rewrite advance_eq. eexists. split; [reflexivity|].
    rewrite Forall_forall. intros te Hin. apply in_flat_map in Hin.
    destruct Hin as (d & _ & [<-|[<-|[]]]); auto. }
  split; [exact Hadv|].
  destruct Hadv as (m1 & E1 & F1). set (w1 := advance cfg t w) in *.
  clearbody w1.
  assert (Hsettled : forall r w2 m2,
            trace w2 = (trace w1 ++ m2)%list -> Forall P m2 ->
            exists more,
              trace (setContactState_settled cfg r w2) = (trace w ++ more)%list
              /\ Forall P more).
  { intros r w2 m2 E2 F2. rewrite setContactState_settled_eq. cbn [trace].
    rewrite E2, E1, <- !app_assoc. eexists. split; [reflexivity|].
    apply Forall_app. split; [exact F1|].
    apply Forall_app. split; [exact F2|]. apply Forall_app. split.
    - apply forall_logs. auto.
    - repeat constructor; auto. }
  destruct i as [value| |k tr].
  - unfold setContactState.
    destruct (strict_eq_num value CONTACT_NOT_DETECTED); [|eauto].
    destruct (sendNotification_request cfg) as [logs [e|req]] eqn:Hreq.
    + eapply Hsettled; [reflexivity|]. repeat constructor; auto.
    + apply request_is_request_for in Hreq. subst req.
      rewrite emit_logs_eq. cbn. rewrite E1, <- !app_assoc.
      eexists. split; [reflexivity|].
      apply Forall_app. split; [exact F1|]. constructor; [auto|].
      apply Forall_app. split; [apply forall_logs; auto|].
      repeat constructor; auto.
  - cbn. rewrite E1, <- app_assoc. eexists. split; [reflexivity|].
    apply Forall_app. split; [exact F1|]. repeat constructor; auto.
  - destruct (pending_request k w1) as [req|]; [|eauto].
    apply (Hsettled _ (resume k w1) []); [|constructor].
    rewrite app_nil_r. reflexivity.
Qed.

Lemma run_expected (evs : list (Z * input)) (h : Z) :
  Forall (fun te => expected_effect cfg (snd te)) (trace (run cfg evs init))
  /\ Forall (fun te => expected_effect cfg (snd te))
       (trace (advance cfg h (run cfg evs init))).
Proof.
  set (P := fun te : Z * effect => expected_effect cfg (snd te)).
  assert (Hstep : forall w ev,
            (exists more, trace (advance cfg (fst ev) w) = (trace w ++ more)%list
                          /\ Forall P more)
            /\ exists more, trace (step cfg w ev) = (trace w ++ more)%list
                            /\ Forall P more).
  { intros w ev. apply step_grows; intros; exact I || reflexivity. }
  assert (Hrun : forall l w, Forall P (trace w) -> Forall P (trace (run cfg l w))).
  { induction l as [|ev l IH]; intros w Hw; [exact Hw|].
    cbn [run fold_left]. apply IH.
    destruct (Hstep w ev) as [_ (more & E & F)]. rewrite E.
    apply Forall_app. split; assumption. }
  assert (Hall : Forall P (trace (run cfg evs init))) by (apply Hrun; constructor).
  split; [exact Hall|].
  destruct (Hstep (run cfg evs init) (h, Query)) as [(more & E & F) _].
  cbn [fst] in E. rewrite E. apply Forall_app. split; assumption.
Qed.

Lemma times_of_in (p : effect -> bool) (w : world) (t : Z) :
  In t (times_of p w) <-> exists e, In (t, e) (trace w) /\ p e = true.
Proof.
  unfold times_of. rewrite in_map_iff. split.
  - intros ([t' e] & <- & Hin). apply filter_In in Hin. exists e. exact Hin.
  - intros (e & Hin & Hp). exists (t, e). split; [reflexivity|].
    apply filter_In. split; assumption.
Qed.

Lemma times_of_agree (p q : effect -> bool) (w : world) :
  Forall (fun te => p (snd te) = q (snd te)) (trace w) ->
  times_of p w = times_of q w.
Proof.
  unfold times_of. induction 1 as [|te l Hte _ IH]; cbn [filter]; [reflexivity|].
  rewrite Hte. destruct (q (snd te)); cbn [map]; rewrite IH; reflexivity.
Qed.

(** In a trace of expected effects every update of the sensor is a reset
    to closed. *)
Lemma resets_are_closings (w : world) :
  Forall (fun te => expected_effect cfg (snd te)) (trace w) ->
  resets w = closings w.
Proof.
  intros H. apply times_of_agree. eapply Forall_impl; [|exact H].
  intros [t e]; cbn. destruct e; cbn; try reflexivity. intros ->. reflexivity.
Qed.

(** C2, as the code has it.  For a valid definition and every well-formed
    schedule of activations and settlements: every activation that carries
    the open value posts its own request, the request of the definition, at
    the time of the activation itself, whatever is still pending; every
    settlement of a request, whatever its outcome (delivered, rejected, no
    response), starts a timer of 1000 ms at the time of the settlement, and
    no timer is started otherwise; and every such timer fires its own reset,
    an update of the sensor to the closed value, 1000 ms after the
    settlement (not after the activation), once the clock gets there; the
    sensor is updated at no other time and to no other value. *)
Theorem reset_follows_settlement (evs : list (Z * input)) (h : Z)
  (Hvalid : valid cfg = true)
  (Hwf : well_formed 0 0 [] evs = true) :
  let w := run cfg evs init in
  posts w = activations evs
  /\ armed w = settlements evs
  /\ (forall a, In a (activations evs) ->
        exists k, In (a, EPost k (request_for cfg)) (trace w))
  /\ (forall s, In s (settlements evs) -> In (s, ESetTimeout 1000) (trace w))
  /\ (forall t delay, In (t, ESetTimeout delay) (trace w) ->
        delay = 1000 /\ In t (settlements evs))
  /\ (clock w <= h ->
      closings (advance cfg h w)
      = filter (due h) (map (fun s => s + 1000) (settlements evs))
      /\ resets (advance cfg h w) = closings (advance cfg h w)
      /\ (forall s, In s (settlements evs) -> s + 1000 <= h ->
            In (s + 1000, EUpdate CONTACT_DETECTED) (trace (advance cfg h w)))
      /\ (forall t value, In (t, EUpdate value) (trace (advance cfg h w)) ->
            value = CONTACT_DETECTED
            /\ t <= h /\ exists s, In s (settlements evs) /\ t = s + 1000)).
Proof.
  destruct (valid_fields cfg Hvalid) as (_ & Ht & _).
  destruct (truthy_prop_some _ Ht) as (tok & Etok & _).
  destruct (run_spec tok evs Etok init init_ok Hwf) as (Hok & Hp & Hm).
  destruct (run_expected evs h) as [Hexp Hexph].
  cbv zeta. cbn [app] in Hp, Hm.
  change (posts init) with (@nil Z) in Hp. change (armed init) with (@nil Z) in Hm.
  cbn [app] in Hp, Hm.
  rewrite Forall_forall in Hexp, Hexph.
  split; [exact Hp|]. split; [exact Hm|]. split; [|split; [|split]].
  - intros a Ha. rewrite <- Hp in Ha. apply times_of_in in Ha.
    destruct Ha as (e & Hin & He). destruct e; try discriminate He.
    pose proof (Hexp _ Hin) as Hreq. cbn in Hreq. subst req. eauto.
  - intros s Hs. rewrite <- Hm in Hs. apply times_of_in in Hs.
    destruct Hs as (e & Hin & He). destruct e; try discriminate He.
    pose proof (Hexp _ Hin) as Hd. cbn in Hd. subst delay. exact Hin.
  - intros t delay Hin. split; [exact (Hexp _ Hin)|].
    rewrite <- Hm. apply times_of_in. exists (ESetTimeout delay). auto.
  - intros Hle.
    assert (Hrc : resets (advance cfg h (run cfg evs init))
                  = closings (advance cfg h (run cfg evs init))).
    { apply resets_are_closings. rewrite Forall_forall. exact Hexph. }
    assert (Hr : resets (advance cfg h (run cfg evs init))
                 = filter (due h) (map (fun s => s + 1000) (settlements evs))).
    { destruct Hok as [Hacc _ _ Hpast].
      unfold resets at 1. rewrite times_of_advance by (intros; reflexivity).
      cbn [is_update]. rewrite <- Hm, <- Hacc, filter_app.
      f_equal. symmetry. apply filter_all.
      eapply Forall_impl; [|exact Hpast]. cbn. intros d Hd. unfold due. lia. }
    split; [rewrite <- Hrc; exact Hr|]. split; [exact Hrc|]. split.
    + intros s Hin Hs.
      assert (Hc : In (s + 1000) (closings (advance cfg h (run cfg evs init)))).
      { rewrite <- Hrc, Hr. apply filter_In. split.
        - apply in_map_iff. exists s. auto.
        - unfold due. lia. }
      apply times_of_in in Hc. destruct Hc as (e & Hc & He).
      destruct e; try discriminate He.
      pose proof (Hexph _ Hc) as Hv. cbn in Hv. subst value. exact Hc.
    + intros t value Hin. split; [exact (Hexph _ Hin)|].
      assert (Hc : In t (resets (advance cfg h (run cfg evs init)))).
      { apply times_of_in. exists (EUpdate value). auto. }
      rewrite Hr in Hc. apply filter_In in Hc. destruct Hc as [Hc Hd].
      apply in_map_iff in Hc. destruct Hc as (s & <- & Hs).
      unfold due in Hd. split; [lia|]. exists s. auto.
Qed.

(** *** Queries *)

Lemma step_answers (w : world) (ev : Z * input) :
  exists more,
    trace (step cfg w ev) = (trace w ++ more)%list
    /\ Forall (fun te => is_open_answer (snd te) = false) more.
Proof.
  destruct ev as [t i]. unfold step. cbn [fst snd].
  assert (Hadv : exists more,
            trace (advance cfg t w) = (trace w ++ more)%list
            /\ Forall (fun te => is_open_answer (snd te) = false) more).
  { rewrite advance_eq. eexists. split; [reflexivity|].
    rewrite Forall_forall. intros te Hin. apply in_flat_map in Hin.
    destruct Hin as (d & _ & [<-|[<-|[]]]); reflexivity. }
  destruct Hadv as (m1 & E1 & F1). set (w1 := advance cfg t w) in *.
  clearbody w1.
  assert (Hsettled : forall r w2 m2,
            trace w2 = (trace w1 ++ m2)%list ->
            Forall (fun te => is_open_answer (snd te) = false) m2 ->
            exists more,
              trace (setContactState_settled cfg r w2) = (trace w ++ more)%list
              /\ Forall (fun te => is_open_answer (snd te) = false) more).
  { intros r w2 m2 E2 F2. rewrite setContactState_settled_eq. cbn [trace].
    rewrite E2, E1, <- !app_assoc. eexists. split; [reflexivity|].
    apply Forall_app. split; [exact F1|].
    apply Forall_app. split; [exact F2|]. apply Forall_app. split.
    - apply forall_logs. reflexivity.
    - repeat constructor. }
  destruct i as [value| |k tr].
  - unfold setContactState.
    destruct (strict_eq_num value CONTACT_NOT_DETECTED); [|eauto].
    destruct (sendNotification_request cfg) as [logs [e|req]].
    + eapply Hsettled; [reflexivity|]. repeat constructor.
    + rewrite emit_logs_eq. cbn. rewrite E1, <- !app_assoc.
      eexists. split; [reflexivity|].
      apply Forall_app. split; [exact F1|]. constructor; [reflexivity|].
      apply Forall_app. split; [apply forall_logs; reflexivity|].
      repeat constructor.
  - cbn. rewrite E1, <- app_assoc. eexists. split; [reflexivity|].
    apply Forall_app. split; [exact F1|]. repeat constructor.
  - destruct (pending_request k w1) as [req|]; [|eauto].
    apply (Hsettled _ (resume k w1) []); [|constructor].
    rewrite app_nil_r. reflexivity.
Qed.

(** C5.  At every point of every run (any schedule of activations,
    settlements and queries, at any time, whatever is pending),
    [getContactState] returns the closed value and never the open one, and
    every query that was made has been answered with the closed value. *)
Theorem getContactState_always_closed (evs : list (Z * input)) (h : Z) :
  getContactState (advance cfg h (run cfg evs init)) = CONTACT_DETECTED
  /\ getContactState (advance cfg h (run cfg evs init)) <> CONTACT_NOT_DETECTED
  /\ forall t value,
       In (t, EAnswer value) (trace (run cfg evs init)) -> value = CONTACT_DETECTED.
Proof.
  split; [reflexivity|]. split; [discriminate|].
  assert (H : forall evs w,
            Forall (fun te => is_open_answer (snd te) = false) (trace w) ->
            Forall (fun te => is_open_answer (snd te) = false) (trace (run cfg evs w))).
  { clear. induction evs as [|ev evs IH]; intros w Hw; [exact Hw|].
    cbn [run fold_left]. apply IH.
    destruct (step_answers w ev) as (more & E & F). rewrite E.
    apply Forall_app. split; assumption. }
  intros t value Hin.
  specialize (H evs init (Forall_nil _)). rewrite Forall_forall in H.
  specialize (H _ Hin). cbn in H.
  destruct (Z.eqb_spec value CONTACT_DETECTED); [assumption | discriminate].
Qed.

End EventLoop.

(** Two activations 100 ms apart: two requests, at 0 and at 100; the
    requests settle at 250 and at 400, and the sensor is reset to closed at
    1250 and at 1400, and at no other time. *)
Lemma reset_follows_settlement_witness :
  valid example_config = true
  /\ well_formed 0 0 [] two_activations = true
  /\ posts (run example_config two_activations init) = [0; 100]%Z
  /\ armed (run example_config two_activations init) = [250; 400]%Z
  /\ closings (advance example_config 2000 (run example_config two_activations init))
     = [1250; 1400]%Z
  /\ resets (advance example_config 2000 (run example_config two_activations init))
     = [1250; 1400]%Z
  /\ In (1250%Z, EUpdate CONTACT_DETECTED)
       (trace (advance example_config 2000 (run example_config two_activations init)))
  /\ In (1400%Z, EUpdate CONTACT_DETECTED)
       (trace (advance example_config 2000 (run example_config two_activations init))).
Proof.
  split; [reflexivity|]. split; [reflexivity|].
  destruct (reset_follows_settlement example_config two_activations 2000%Z
              eq_refl eq_refl) as (Hp & Hm & _ & _ & _ & Hreset).
  split; [exact Hp|]. split; [exact Hm|].
  destruct Hreset as (Hc & Hr & Hin & _);
    [apply Z.leb_le; vm_compute; reflexivity|].
  split; [rewrite Hc; reflexivity|].
  split; [rewrite Hr, Hc; reflexivity|].
  split.
  - apply (Hin 250%Z); [rewrite <- Hm; vm_compute; auto | lia].
  - apply (Hin 400%Z); [rewrite <- Hm; vm_compute; auto | lia].
Defined.

(** C2 as stated fails: the reset does not come 1000 ms after the
    activation when the request takes long.  One activation at 0 whose
    request settles at 5000: the sensor is not updated by 4999, the one
    reset to closed comes at 6000, which is not within 500 ms of 1000 ms
    after the activation. *)
Lemma reset_waits_for_dispatch :
  posts (run example_config slow_dispatch init) = [0%Z]
  /\ resets (advance example_config 4999
               (run example_config [(0%Z, Activate (VNum 1))] init)) = []
  /\ closings (advance example_config 6000 (run example_config slow_dispatch init))
     = [6000%Z]
  /\ resets (advance example_config 6000 (run example_config slow_dispatch init))
     = [6000%Z]
  /\ In (6000%Z, EUpdate CONTACT_DETECTED)
       (trace (advance example_config 6000 (run example_config slow_dispatch init)))
  /\ ~ (forall r,
         In r (closings (advance example_config 6000
                           (run example_config slow_dispatch init))) ->
         (0 + 1000 - 500 <= r <= 0 + 1000 + 500)%Z).
Proof.
  split; [reflexivity|]. split; [reflexivity|]. split; [reflexivity|].
  split; [reflexivity|].
  split; [vm_compute; repeat (try (left; reflexivity); right)|].
  intros H. specialize (H 6000%Z (or_introl eq_refl)). lia.
Qed.

(* ================================================================= *)
(** ** Reconciliation as a whole *)

Section RegistryPasses.

Variable generate : string -> string.

Lemma find_apply_first {A} (f : A -> bool) (g : A -> A) (l : list A) (x : A) :
  find f l = Some x ->
  replace_first f (g x) l = apply_first f g l /\ existsb f l = true.
Proof.
  induction l as [|y l IH]; cbn; [discriminate|].
  destruct (f y) eqn:Hy.
  - intros [= ->]. auto.
  - intros Hf. destruct (IH Hf) as [-> ->]. auto.
Qed.

Lemma find_none_apply_first {A} (f : A -> bool) (g : A -> A) (l : list A) :
  find f l = None -> apply_first f g l = l /\ existsb f l = false.
Proof.
  induction l as [|y l IH]; cbn; [auto|].
  destruct (f y) eqn:Hy; [discriminate|].
  intros Hf. destruct (IH Hf) as [-> ->]. auto.
Qed.

Lemma rebind_identity (w : WebhookConfig) (a : PlatformAccessory) :
  UUID (rebind w a) = UUID a /\ displayName (rebind w a) = displayName a
  /\ context_webhook (rebind w a) = Some w.
Proof. repeat split. Qed.

Lemma map_apply_first {A B} (h : A -> B) (f : A -> bool) (g : A -> A) (l : list A) :
  (forall a, h (g a) = h a) -> map h (apply_first f g l) = map h l.
Proof.
  intros Hg. induction l as [|y l IH]; cbn; [reflexivity|].
  destruct (f y); cbn; [rewrite Hg | rewrite IH]; reflexivity.
Qed.

Lemma existsb_identifier (u : string) (l l' : list PlatformAccessory) :
  map UUID l' = map UUID l ->
  existsb (has_identifier u) l' = existsb (has_identifier u) l.
Proof.
  revert l'. induction l as [|a l IH]; intros [|a' l'] E; cbn in *;
    try discriminate; [reflexivity|].
  injection E as Ea El. unfold has_identifier at 1 3. rewrite Ea, (IH l' El).
  reflexivity.
Qed.

(** One valid definition: the first cached accessory of its identifier is
    rebound; without one, a new entity is registered; a handler is made
    either way. *)
Lemma discover_one_valid (w : WebhookConfig) (p : Platform) :
  valid w = true ->
  exists logs h,
    discover_one generate (Some w) p =
    (logs,
     inr {| accessories :=
              apply_first (has_identifier (generate (template (name w))))
                (rebind w) (accessories p);
            registered :=
              (registered p
               ++ map (fun w => (PLUGIN_NAME, PLATFORM_NAME, [new_entity generate w]))
                    (uncached generate (accessories p) [w]))%list;
            handlers := (handlers p ++ [h])%list |})
    /\ webhookConfig h = w
    /\ UUID (accessory h) = generate (template (name w)).
Proof.
  intros Hv. unfold uncached. cbn [filter].
  destruct (find (fun a => UUID a =? generate (template (name w))) (accessories p))
    as [known|] eqn:Hf.
  - rewrite (discover_one_existing generate w p known Hv Hf).
    destruct (find_apply_first _ (rebind w) _ _ Hf) as [Er Ee].
    unfold has_identifier. rewrite Ee. cbn [negb map]. rewrite app_nil_r.
    eexists; exists {| accessory := rebind w known; webhookConfig := w |}.
    split; [|split; [reflexivity|]].
    + unfold rebind in Er. rewrite Er. reflexivity.
    + cbn. apply find_some in Hf. destruct Hf as [_ Hu].
      apply String.eqb_eq in Hu. exact Hu.
  - rewrite (discover_one_new generate w p Hv Hf).
    destruct (find_none_apply_first _ (rebind w) _ Hf) as [Er Ee].
    unfold has_identifier. rewrite Ee, Er. cbn [negb map].
    eexists; eexists. split; [reflexivity|]. split; reflexivity.
Qed.

Lemma discover_one_skipped (entry : option WebhookConfig) (p : Platform) :
  valid_entries [entry] = [] ->
  exists logs, discover_one generate entry p = (logs, inr p).
Proof.
  destruct entry as [w|]; cbn [valid_entries].
  - destruct (valid w) eqn:Hv; [discriminate|]. intros _.
    destruct (missing_field w) as [field|] eqn:Hm.
    + rewrite (discover_one_invalid generate w field p Hm). eauto.
    + apply missing_field_valid in Hm. congruence.
  - intros _. eexists. reflexivity.
Qed.

Lemma reconcile_cache_identity (ws : list WebhookConfig)
  (accs : list PlatformAccessory) :
  map UUID (reconcile_cache generate ws accs) = map UUID accs
  /\ map displayName (reconcile_cache generate ws accs) = map displayName accs.
Proof.
  unfold reconcile_cache. revert accs.
  induction ws as [|w ws IH]; intros accs; cbn [fold_left]; [auto|].
  destruct (IH (apply_first (has_identifier (generate (template (name w))))
                  (rebind w) accs)) as [-> ->].
  rewrite !map_apply_first by reflexivity. auto.
Qed.

(** The whole loop: what it makes of the cache, what it registers, and the
    handlers it creates. *)
Lemma for_of_discover_spec (l : list (option WebhookConfig)) (p : Platform) :
  exists logs hs,
    for_of (discover_one generate) l p =
    (logs,
     inr {| accessories := reconcile_cache generate (valid_entries l) (accessories p);
            registered :=
              (registered p
               ++ map (fun w => (PLUGIN_NAME, PLATFORM_NAME, [new_entity generate w]))
                    (uncached generate (accessories p) (valid_entries l)))%list;
            handlers := (handlers p ++ hs)%list |})
    /\ map webhookConfig hs = valid_entries l
    /\ map (fun h => UUID (accessory h)) hs
       = map (fun w => generate (template (name w))) (valid_entries l).
Proof.
  revert p. induction l as [|entry l IH]; intros p.
  - exists [], []. cbn. rewrite !app_nil_r. destruct p; auto.
  - cbn [for_of].
    destruct (valid_entries [entry]) as [|w0 rest] eqn:He.
    + destruct (discover_one_skipped entry p He) as [logs1 E1]. rewrite E1.
      destruct (IH p) as (logs2 & hs & E2 & Hh & Hu). unfold bind. rewrite E2.
      assert (Hl : valid_entries (entry :: l) = valid_entries l).
      { destruct entry as [w|]; cbn in *; [|reflexivity].
        destruct (valid w); [discriminate | reflexivity]. }
      rewrite Hl. eauto.
    + assert (Hw : exists w, entry = Some w /\ valid w = true
                     /\ valid_entries (entry :: l) = w :: valid_entries l).
      { destruct entry as [w|]; cbn in *; [|discriminate].
        destruct (valid w) eqn:Hv; [|discriminate]. eauto. }
      destruct Hw as (w & -> & Hv & Hl). rewrite Hl.
      destruct (discover_one_valid w p Hv) as (logs1 & h & E1 & Hh1 & Hu1).
      rewrite E1. unfold bind.
      match goal with |- context [for_of _ l ?q] =>
        destruct (IH q) as (logs2 & hs & E2 & Hh & Hu) end.
      rewrite E2. cbn [accessories registered handlers].
      exists (logs1 ++ logs2)%list, (h :: hs). split; [|split].
      * f_equal. f_equal. f_equal.
        -- rewrite <- app_assoc, <- map_app. f_equal. f_equal.
           unfold uncached. cbn [filter].
           replace (filter _ (valid_entries l)) with
             (filter (fun w1 => negb (existsb
                 (has_identifier (generate (template (name w1)))) (accessories p)))
               (valid_entries l)).
           ++ destruct (negb (existsb _ (accessories p))); reflexivity.
           ++ apply filter_ext. intros w1. f_equal. symmetry.
              apply existsb_identifier. apply map_apply_first. reflexivity.
        -- rewrite <- app_assoc. reflexivity.
      * cbn. rewrite Hh1, Hh. reflexivity.
      * cbn. rewrite Hu1, Hu. reflexivity.
Qed.

(** *** Characteristics *)

Lemma set_id (c : string) (v : CharacteristicValue) (s : Service) :
  getCharacteristic c s = Some v -> setCharacteristic c v s = s.
Proof.
  induction s as [|[k x] s IH]; cbn; [discriminate|].
  destruct (k =? c) eqn:E.
  - intros [= ->]. apply String.eqb_eq in E. subst. reflexivity.
  - intros H. rewrite (IH H). reflexivity.
Qed.

Lemma set_set (c : string) (v1 v2 : CharacteristicValue) (s : Service) :
  setCharacteristic c v2 (setCharacteristic c v1 s) = setCharacteristic c v2 s.
Proof.
  induction s as [|[k x] s IH]; cbn.
  - rewrite String.eqb_refl. reflexivity.
  - destruct (k =? c) eqn:E; cbn; rewrite ?String.eqb_refl, ?E, ?IH; reflexivity.
Qed.

Lemma set_swap (c c' : string) (v1 v2 v' : CharacteristicValue) (s : Service) :
  c <> c' ->
  setCharacteristic c v2 (setCharacteristic c' v' (setCharacteristic c v1 s))
  = setCharacteristic c' v' (setCharacteristic c v2 s).
Proof.
  intros Hc. pose proof Hc as Hc1. apply String.eqb_neq in Hc1.
  assert (Hc2 : (c' =? c) = false) by (apply String.eqb_neq; congruence).
  induction s as [|[k x] s IH].
  - cbn. rewrite Hc1. cbn. rewrite String.eqb_refl. reflexivity.
  - cbn [setCharacteristic]. destruct (k =? c) eqn:E.
    + cbn [setCharacteristic]. rewrite Hc1. cbn [setCharacteristic].
      rewrite String.eqb_refl. reflexivity.
    + cbn [setCharacteristic]. destruct (k =? c') eqn:E'.
      * cbn [setCharacteristic]. rewrite ?Hc2, ?E.
        apply String.eqb_eq in E'. subst k. f_equal. apply set_set.
      * cbn [setCharacteristic]. rewrite ?E, ?E', IH. reflexivity.
Qed.

(** A later binding absorbs an earlier one. *)
Lemma rebind_absorbs (w1 w2 : WebhookConfig) (a : PlatformAccessory) :
  rebind w2 (rebind w1 a) = rebind w2 a.
Proof.
  unfold rebind, attach, set_context, updateCharacteristic.
  cbn [displayName UUID context_webhook AccessoryInformation ContactSensor].
  f_equal.
  - set (i := AccessoryInformation a).
    rewrite (set_id "Manufacturer" _
               (setCharacteristic "SerialNumber" _ _)).
    + rewrite (set_id "Model" _ (setCharacteristic "SerialNumber" _ _)).
      * apply set_set.
      * rewrite get_set_other by discriminate. apply get_set_same.
    + rewrite !get_set_other by discriminate. apply get_set_same.
  - f_equal. rewrite (set_swap "Name" "ContactSensorState") by discriminate.
    apply set_set.
Qed.

Lemma apply_first_absorbs (u : string) (g1 g2 : PlatformAccessory -> PlatformAccessory)
  (l : list PlatformAccessory) :
  (forall a, UUID (g1 a) = UUID a) -> (forall a, g2 (g1 a) = g2 a) ->
  apply_first (has_identifier u) g2 (apply_first (has_identifier u) g1 l)
  = apply_first (has_identifier u) g2 l.
Proof.
  intros H1 H2. induction l as [|y l IH]; cbn; [reflexivity|].
  destruct (has_identifier u y) eqn:E; cbn.
  - unfold has_identifier in *. rewrite H1, E, H2. reflexivity.
  - rewrite E, IH. reflexivity.
Qed.

Lemma apply_first_commutes (u1 u2 : string)
  (g1 g2 : PlatformAccessory -> PlatformAccessory) (l : list PlatformAccessory) :
  u1 <> u2 ->
  (forall a, UUID (g1 a) = UUID a) -> (forall a, UUID (g2 a) = UUID a) ->
  apply_first (has_identifier u1) g1 (apply_first (has_identifier u2) g2 l)
  = apply_first (has_identifier u2) g2 (apply_first (has_identifier u1) g1 l).
Proof.
  intros Hu H1 H2. induction l as [|y l IH]; cbn; [reflexivity|].
  destruct (has_identifier u1 y) eqn:E1, (has_identifier u2 y) eqn:E2; cbn.
  - unfold has_identifier in *. apply String.eqb_eq in E1, E2. congruence.
  - rewrite E1. unfold has_identifier in *. rewrite H1, E2. reflexivity.
  - rewrite E2. unfold has_identifier in *. rewrite H2, E1. reflexivity.
  - rewrite E1, E2, IH. reflexivity.
Qed.

Lemma reconcile_cache_overrides (w : WebhookConfig) (ws : list WebhookConfig)
  (accs : list PlatformAccessory) :
  (exists w', In w' ws
              /\ generate (template (name w')) = generate (template (name w))) ->
  reconcile_cache generate (w :: ws) accs = reconcile_cache generate ws accs.
Proof.
  unfold reconcile_cache. cbn [fold_left]. revert accs.
  induction ws as [|w1 ws IH]; intros accs (w' & Hin & Hu); [destruct Hin|].
  cbn [fold_left].
  destruct (string_dec (generate (template (name w1))) (generate (template (name w))))
    as [E|N].
  - rewrite E, apply_first_absorbs; [reflexivity|reflexivity|].
    intros a. apply rebind_absorbs.
  - rewrite apply_first_commutes by (auto || reflexivity).
    apply IH. destruct Hin as [<-|Hin]; [congruence|]. eauto.
Qed.

Lemma reconcile_cache_app (ws1 ws2 : list WebhookConfig)
  (accs : list PlatformAccessory) :
  reconcile_cache generate (ws1 ++ ws2) accs
  = reconcile_cache generate ws2 (reconcile_cache generate ws1 accs).
Proof. unfold reconcile_cache. apply fold_left_app. Qed.

Lemma reconcile_cache_idempotent (ws : list WebhookConfig)
  (accs : list PlatformAccessory) :
  reconcile_cache generate ws (reconcile_cache generate ws accs)
  = reconcile_cache generate ws accs.
Proof.
  rewrite <- reconcile_cache_app.
  assert (H : forall ws1, incl ws1 ws ->
            reconcile_cache generate (ws1 ++ ws) accs
            = reconcile_cache generate ws accs).
  { induction ws1 as [|w ws1 IH]; intros Hi; [reflexivity|].
    cbn [app]. rewrite reconcile_cache_overrides.
    - apply IH. intros x Hx. apply Hi. right. exact Hx.
    - exists w. split; [|reflexivity]. apply in_or_app. right.
      apply Hi. left. reflexivity. }
  apply H, incl_refl.
Qed.

Lemma apply_first_elsewhere {A} (f : A -> bool) (g : A -> A) (l : list A)
  (i : nat) (a : A) :
  f a = false -> nth_error l i = Some a ->
  nth_error (apply_first f g l) i = Some a.
Proof.
  intros Hf. revert i. induction l as [|y l IH]; intros [|i]; cbn;
    try discriminate.
  - intros [= ->]. rewrite Hf. reflexivity.
  - intros H. destruct (f y); cbn; auto.
Qed.

Lemma for_of_configure (cached : list PlatformAccessory) (p : Platform) :
  exists logs,
    for_of configureAccessory cached p =
    (logs, inr {| accessories := (accessories p ++ cached)%list;
                  registered := registered p; handlers := handlers p |}).
Proof.
  revert p. induction cached as [|a cached IH]; intros p; cbn [for_of].
  - eexists. cbn. rewrite app_nil_r. destruct p; reflexivity.
  - assert (Ec : configureAccessory a p =
                 ([mkLog Info [LStr "Loading accessory from cache:";
                               LStr (displayName a)]],
                  inr {| accessories := (accessories p ++ [a])%list;
                         registered := registered p; handlers := handlers p |}))
      by reflexivity.
    rewrite Ec. unfold bind at 1.
    match goal with |- context [for_of _ cached ?q] =>
      destruct (IH q) as (logs & E) end.
    rewrite E. cbn [accessories registered handlers]. rewrite <- app_assoc.
    eexists. reflexivity.
Qed.

(** *** What a pass keeps, makes and registers *)

(** X1.  [discoverDevices] only adds.  For a [webhooks] setting that is no
    array, or an array whose entries are [null], [undefined] or objects
    typed as [WebhookConfig] declares them (each field a string or absent),
    and with the calls to the host returning, the pass completes; the
    cached accessories are all still there afterwards, in the same order,
    each with its identifier and its display name; the registrations and
    the handlers made before are still there, followed by the new ones. *)
Theorem discoverDevices_keeps_cache
  (config_webhooks : option (list (option WebhookConfig))) (p : Platform) :
  exists logs p',
    discoverDevices generate config_webhooks p = (logs, inr p')
    /\ map UUID (accessories p') = map UUID (accessories p)
    /\ map displayName (accessories p') = map displayName (accessories p)
    /\ (exists more, registered p' = (registered p ++ more)%list)
    /\ (exists more, handlers p' = (handlers p ++ more)%list).
Proof.
  destruct config_webhooks as [l|]; cbn [discoverDevices].
  - destruct (for_of_discover_spec l p) as (logs & hs & E & _).
    rewrite E. eexists; eexists. split; [reflexivity|].
    cbn [accessories registered handlers].
    destruct (reconcile_cache_identity (valid_entries l) (accessories p)) as [-> ->].
    repeat split; try reflexivity; eexists; reflexivity.
  - eexists; exists p. split; [reflexivity|].
    repeat split; try reflexivity; exists []; rewrite app_nil_r; reflexivity.
Qed.

(** X2.  A cached accessory whose identifier no valid declared definition
    generates is left exactly as it was, at its place in the array. *)
Theorem undeclared_accessory_untouched (l : list (option WebhookConfig))
  (p : Platform) (i : nat) (a : PlatformAccessory)
  (Hcached : nth_error (accessories p) i = Some a)
  (Hundeclared : forall w, In w (valid_entries l) ->
                   generate (template (name w)) <> UUID a) :
  exists logs p',
    discoverDevices generate (Some l) p = (logs, inr p')
    /\ nth_error (accessories p') i = Some a.
Proof.
  cbn [discoverDevices].
  destruct (for_of_discover_spec l p) as (logs & hs & E & _).
  rewrite E. eexists; eexists. split; [reflexivity|]. cbn [accessories].
  unfold reconcile_cache. revert Hcached Hundeclared.
  generalize (accessories p) as accs. generalize (valid_entries l) as ws.
  induction ws as [|w ws IH]; intros accs Hc Hu; cbn [fold_left]; [exact Hc|].
  apply IH.
  - apply apply_first_elsewhere; [|exact Hc].
    unfold has_identifier. apply String.eqb_neq.
    intros E'. apply (Hu w); [left; reflexivity | congruence].
  - intros w' Hin. apply Hu. right. exact Hin.
Qed.

(** X3.  Every valid entry of the array gets a handler of its own, in the
    order of declaration, bound to that entry and to an accessory of the
    identifier generated from its name, whether that accessory is cached or
    new; entries that are skipped get none. *)
Theorem handler_per_valid_definition (l : list (option WebhookConfig))
  (p : Platform) :
  exists logs p' hs,
    discoverDevices generate (Some l) p = (logs, inr p')
    /\ handlers p' = (handlers p ++ hs)%list
    /\ map webhookConfig hs = valid_entries l
    /\ map (fun h => UUID (accessory h)) hs
       = map (fun w => generate (template (name w))) (valid_entries l).
Proof.
  cbn [discoverDevices].
  destruct (for_of_discover_spec l p) as (logs & hs & E & Hh & Hu).
  rewrite E. eexists; eexists; exists hs. auto.
Qed.

(** X4.  What a pass registers with the host is exactly one new entity for
    each valid entry whose identifier is not in the cache with which the
    pass began, in the order of declaration and with repetitions: the
    entities made during the pass do not count as cached. *)
Theorem registered_are_the_uncached (l : list (option WebhookConfig))
  (p : Platform) :
  exists logs p',
    discoverDevices generate (Some l) p = (logs, inr p')
    /\ registered p' =
       (registered p
        ++ map (fun w => (PLUGIN_NAME, PLATFORM_NAME, [new_entity generate w]))
             (uncached generate (accessories p) (valid_entries l)))%list
    /\ forall w, UUID (new_entity generate w) = generate (template (name w))
                 /\ context_webhook (new_entity generate w) = Some w.
Proof.
  cbn [discoverDevices].
  destruct (for_of_discover_spec l p) as (logs & hs & E & _).
  rewrite E. eexists; eexists. split; [reflexivity|]. split; [reflexivity|].
  intros w. split; reflexivity.
Qed.

Lemma uncached_own_entities (ws : list WebhookConfig) :
  uncached generate (map (new_entity generate) ws) ws = [].
Proof.
  unfold uncached. apply filter_none. rewrite Forall_forall. intros w Hin.
  apply negb_false_iff. apply existsb_exists.
  exists (new_entity generate w). split; [apply in_map; exact Hin|].
  unfold has_identifier. apply String.eqb_refl.
Qed.

Lemma startup_spec (n : prop) (l : list (option WebhookConfig))
  (cached : list PlatformAccessory) :
  exists logs hs,
    startup generate {| config_name := n; webhooks := Some l |} cached =
    (logs,
     inr {| accessories := reconcile_cache generate (valid_entries l) cached;
            registered :=
              map (fun w => (PLUGIN_NAME, PLATFORM_NAME, [new_entity generate w]))
                (uncached generate cached (valid_entries l));
            handlers := hs |})
    /\ map webhookConfig hs = valid_entries l.
Proof.
  unfold startup, new_NotifyWebhookPlatform, didFinishLaunching.
  cbn [webhooks discoverDevices]. unfold bind at 1 2. cbn [log ret].
  destruct (for_of_configure cached empty_platform) as (logs1 & E1).
  rewrite E1. unfold bind at 1 2. cbn [log].
  match goal with |- context [for_of _ l ?q] =>
    destruct (for_of_discover_spec l q) as (logs2 & hs & E2 & Hh & _) end.
  rewrite E2. cbn. eauto.
Qed.

(** X5.  Restart.  When the host starts for the first time, with no cached
    accessory, a new entity is registered for every valid entry; when it
    starts again with the same configuration and hands back the accessories
    registered the first time, nothing is registered, the cache keeps its
    identifiers, and every valid entry has its handler again. *)
Theorem restart_registers_nothing (n : prop) (l : list (option WebhookConfig)) :
  exists logs1 p1 logs2 p2,
    startup generate {| config_name := n; webhooks := Some l |} [] = (logs1, inr p1)
    /\ registered_accessories p1 = map (new_entity generate) (valid_entries l)
    /\ startup generate {| config_name := n; webhooks := Some l |}
         (registered_accessories p1) = (logs2, inr p2)
    /\ registered p2 = []
    /\ map UUID (accessories p2) = map UUID (registered_accessories p1)
    /\ map webhookConfig (handlers p2) = valid_entries l.
Proof.
  destruct (startup_spec n l []) as (logs1 & hs1 & E1 & _).
  assert (Hreg : registered_accessories
                   {| accessories := reconcile_cache generate (valid_entries l) [];
                      registered :=
                        map (fun w => (PLUGIN_NAME, PLATFORM_NAME,
                                       [new_entity generate w]))
                          (uncached generate [] (valid_entries l));
                      handlers := hs1 |}
                 = map (new_entity generate) (valid_entries l)).
  { unfold registered_accessories, uncached. cbn [registered existsb negb].
    rewrite filter_all by (rewrite Forall_forall; reflexivity).
    clear. induction (valid_entries l) as [|w ws IH]; [reflexivity|].
    cbn [map concat snd app]. f_equal. exact IH. }
  destruct (startup_spec n l (map (new_entity generate) (valid_entries l)))
    as (logs2 & hs2 & E2 & Hh2).
  eexists; eexists; eexists; eexists.
  split; [exact E1|]. split; [exact Hreg|]. rewrite Hreg.
  split; [exact E2|]. cbn [accessories registered handlers].
  rewrite uncached_own_entities.
  destruct (reconcile_cache_identity (valid_entries l)
              (map (new_entity generate) (valid_entries l))) as [-> _].
  auto.
Qed.

(** X6.  The last declaration wins.  A valid definition that is followed in
    the array by another valid definition of the same identifier leaves no
    mark on the cache: the cached accessories end up as they would without
    it. *)
Theorem later_definition_overrides (w : WebhookConfig)
  (l : list (option WebhookConfig)) (p : Platform)
  (Hvalid : valid w = true)
  (Hlater : exists w', In w' (valid_entries l)
              /\ generate (template (name w')) = generate (template (name w))) :
  exists logs1 p1 logs2 p2,
    discoverDevices generate (Some (Some w :: l)) p = (logs1, inr p1)
    /\ discoverDevices generate (Some l) p = (logs2, inr p2)
    /\ accessories p1 = accessories p2.
Proof.
  cbn [discoverDevices].
  destruct (for_of_discover_spec (Some w :: l) p) as (logs1 & hs1 & E1 & _).
  destruct (for_of_discover_spec l p) as (logs2 & hs2 & E2 & _).
  rewrite E1, E2. eexists; eexists; eexists; eexists.
  split; [reflexivity|]. split; [reflexivity|]. cbn [accessories valid_entries].
  rewrite Hvalid. apply reconcile_cache_overrides. exact Hlater.
Qed.

(** X7.  On the cache a pass is idempotent: a second pass with the same
    array over the platform that the first one left changes no cached
    accessory. *)
Theorem discoverDevices_idempotent_on_cache (l : list (option WebhookConfig))
  (p : Platform) :
  exists logs1 p1 logs2 p2,
    discoverDevices generate (Some l) p = (logs1, inr p1)
    /\ discoverDevices generate (Some l) p1 = (logs2, inr p2)
    /\ accessories p2 = accessories p1.
Proof.
  cbn [discoverDevices].
  destruct (for_of_discover_spec l p) as (logs1 & hs1 & E1 & _). rewrite E1.
  match type of E1 with _ = (_, inr ?q) =>
    destruct (for_of_discover_spec l q) as (logs2 & hs2 & E2 & _) end.
  eexists; eexists; eexists; eexists.
  split; [reflexivity|]. split; [exact E2|]. cbn [accessories].
  apply reconcile_cache_idempotent.
Qed.

End RegistryPasses.

(** A cached accessory of another name keeps its place and its state. *)
Lemma undeclared_accessory_untouched_witness :
  nth_error (accessories example_cache) 0 = Some garage_accessory
  /\ (forall w, In w (valid_entries [Some example_config]) ->
        example_generate (template (name w)) <> UUID garage_accessory)
  /\ exists logs p',
       discoverDevices example_generate (Some [Some example_config]) example_cache
         = (logs, inr p')
       /\ nth_error (accessories p') 0 = Some garage_accessory.
Proof.
  assert (H : forall w, In w (valid_entries [Some example_config]) ->
                example_generate (template (name w)) <> UUID garage_accessory).
  { intros w [<-|[]]. discriminate. }
  split; [reflexivity|]. split; [exact H|].
  exact (undeclared_accessory_untouched example_generate [Some example_config]
           example_cache 0 garage_accessory eq_refl H).
Defined.

(** Two definitions of one name with different texts: the cache ends up as
    with the second alone. *)
Lemma later_definition_overrides_witness :
  valid example_config = true
  /\ (exists w', In w' (valid_entries [Some (with_text (Some "Hello") example_config)])
        /\ example_generate (template (name w'))
           = example_generate (template (name example_config)))
  /\ exists logs1 p1 logs2 p2,
       discoverDevices example_generate
         (Some [Some example_config; Some (with_text (Some "Hello") example_config)])
         example_cache = (logs1, inr p1)
       /\ discoverDevices example_generate
            (Some [Some (with_text (Some "Hello") example_config)])
            example_cache = (logs2, inr p2)
       /\ accessories p1 = accessories p2.
Proof.
  assert (H : exists w',
            In w' (valid_entries [Some (with_text (Some "Hello") example_config)])
            /\ example_generate (template (name w'))
               = example_generate (template (name example_config))).
  { exists (with_text (Some "Hello") example_config). split; [left|]; reflexivity. }
  split; [reflexivity|]. split; [exact H|].
  exact (later_definition_overrides example_generate example_config
           [Some (with_text (Some "Hello") example_config)] example_cache
           eq_refl H).
Defined.

(* ================================================================= *)
(** ** The constructor of the accessory *)

Lemma set_context_same (cfg : WebhookConfig) (acc : PlatformAccessory) :
  context_webhook acc = Some cfg -> set_context cfg acc = acc.
Proof.
  destruct acc; cbn. intros ->. reflexivity.
Qed.

Lemma attach_idempotent (cfg : WebhookConfig) (acc : PlatformAccessory) :
  context_webhook acc = Some cfg ->
  attach cfg (attach cfg acc) = attach cfg acc.
Proof.
  intros Hc.
  pose proof (rebind_absorbs cfg cfg acc) as H. unfold rebind in H.
  rewrite (set_context_same cfg acc Hc) in H.
  rewrite (set_context_same cfg (attach cfg acc) Hc) in H. exact H.
Qed.

(** X8.  The constructor is idempotent on the accessory: run again on the
    accessory it has set up, as it is on every restart with an unchanged
    definition, it leaves the accessory as it is, and the handler it makes
    is the same. *)
Theorem constructor_idempotent (acc : PlatformAccessory) (cfg : WebhookConfig)
  (Hcontext : context_webhook acc = Some cfg) :
  exists acc1 h,
    new_NotifyWebhookAccessory acc = inr (acc1, h)
    /\ new_NotifyWebhookAccessory acc1 = inr (acc1, h).
Proof.
  unfold new_NotifyWebhookAccessory. rewrite Hcontext.
  exists (attach cfg acc), {| accessory := attach cfg acc; webhookConfig := cfg |}.
  split; [reflexivity|].
  change (context_webhook (attach cfg acc)) with (context_webhook acc).
  rewrite Hcontext, (attach_idempotent cfg acc Hcontext). reflexivity.
Qed.

Lemma constructor_idempotent_witness :
  context_webhook (set_context example_config garage_accessory) = Some example_config
  /\ exists acc1 h,
       new_NotifyWebhookAccessory (set_context example_config garage_accessory)
         = inr (acc1, h)
       /\ new_NotifyWebhookAccessory acc1 = inr (acc1, h).
Proof.
  split; [reflexivity|].
  exact (constructor_idempotent (set_context example_config garage_accessory)
           example_config eq_refl).
Defined.

(* ================================================================= *)
(** ** More on the event loop *)

Section EventLoopMore.

Variable cfg : WebhookConfig.

Local Open Scope Z_scope.

(** X11.  Whatever the schedule and the configuration, the accessory does
    nothing but this: it logs, it posts the one request of its
    configuration, it sets timers of 1000 ms, it updates the sensor to
    closed, and it answers queries with closed.  It never updates the sensor
    to open, and never posts anything else. *)
Theorem effects_are_expected (evs : list (Z * input)) (h : Z) :
  forall t e,
    In (t, e) (trace (advance cfg h (run cfg evs init))) -> expected_effect cfg e.
Proof.
  set (P := fun te : Z * effect => expected_effect cfg (snd te)).
  assert (Hstep : forall w ev,
            (exists more, trace (advance cfg (fst ev) w) = (trace w ++ more)%list
                          /\ Forall P more)
            /\ exists more, trace (step cfg w ev) = (trace w ++ more)%list
                            /\ Forall P more).
  { intros w ev. apply step_grows; intros; exact I || reflexivity. }
  assert (Hrun : forall evs w, Forall P (trace w) -> Forall P (trace (run cfg evs w))).
  { clear evs. induction evs as [|ev evs IH]; intros w Hw; [exact Hw|].
    cbn [run fold_left]. apply IH.
    destruct (Hstep w ev) as [_ (more & E & F)]. rewrite E.
    apply Forall_app. split; assumption. }
  intros t e Hin.
  destruct (Hstep (run cfg evs init) (h, Query)) as [(more & E & F) _].
  cbn [fst] in E. rewrite E in Hin.
  assert (Hall : Forall P (trace (run cfg evs init) ++ more)).
  { apply Forall_app. split; [apply Hrun; constructor | exact F]. }
  rewrite Forall_forall in Hall. exact (Hall _ Hin).
Qed.

Lemma step_inert (w : world) (t : Z) (i : input) :
  awaiting w = [] -> timers w = [] -> is_opening i = false ->
  step cfg w (t, i) =
  {| clock := Z.max (clock w) t; next_request := next_request w;
     awaiting := []; timers := [];
     trace := (trace w
               ++ match i with
                  | Query => [(Z.max (clock w) t, EAnswer CONTACT_DETECTED)]
                  | _ => []
                  end)%list |}.
Proof.
  intros Ha Ht Hi. unfold step. cbn [fst snd]. rewrite advance_eq, Ha, Ht.
  cbn [filter flat_map]. rewrite app_nil_r.
  destruct i as [value| |k tr].
  - rewrite setContactState_other_eq by exact Hi. rewrite app_nil_r. reflexivity.
  - reflexivity.
  - cbn. rewrite app_nil_r. reflexivity.
Qed.

(** X10.  Only the open value triggers.  In a run whose activations all
    carry another value (closed, a boolean, a string), nothing is logged,
    nothing is posted and no timer is set: the trace holds the answers to
    the queries and nothing else, and nothing is pending. *)
Theorem other_values_do_nothing (evs : list (Z * input))
  (Hnone : forall ev, In ev evs -> is_opening (snd ev) = false) :
  awaiting (run cfg evs init) = []
  /\ timers (run cfg evs init) = []
  /\ forall t e, In (t, e) (trace (run cfg evs init)) -> e = EAnswer CONTACT_DETECTED.
Proof.
  assert (H : forall w,
            awaiting w = [] -> timers w = [] ->
            Forall (fun te => snd te = EAnswer CONTACT_DETECTED) (trace w) ->
            awaiting (run cfg evs w) = [] /\ timers (run cfg evs w) = []
            /\ Forall (fun te => snd te = EAnswer CONTACT_DETECTED)
                 (trace (run cfg evs w))).
  { induction evs as [|[t i] evs IH]; intros w Ha Ht Hf; [auto|].
    cbn [run fold_left].
    rewrite (step_inert w t i Ha Ht)
      by (apply (Hnone (t, i)); left; reflexivity).
    apply IH; [|reflexivity|reflexivity|].
    - intros ev Hin. apply Hnone. right. exact Hin.
    - cbn [trace]. apply Forall_app. split; [exact Hf|].
      destruct i; repeat constructor. }
  destruct (H init eq_refl eq_refl (Forall_nil _)) as (Ha & Ht & Hf).
  split; [exact Ha|]. split; [exact Ht|].
  intros t e Hin. rewrite Forall_forall in Hf. exact (Hf _ Hin).
Qed.

(** *** The books of the event loop *)

Lemma times_of_emit_answer (p : effect -> bool) (v : Z) (w : world) :
  p (EAnswer v) = false -> times_of p (emit (EAnswer v) w) = times_of p w.
Proof.
  intros Hp. unfold times_of, emit. cbn [trace].
  rewrite filter_app, map_app. cbn. rewrite Hp. apply app_nil_r.
Qed.

Lemma resume_length (k : nat) (l : list (nat * Request)) (req : Request) :
  NoDup (map fst l) ->
  option_map snd (find (fun kr => Nat.eqb (fst kr) k) l) = Some req ->
  S (length (filter (fun kr => negb (Nat.eqb (fst kr) k)) l)) = length l.
Proof.
  induction l as [|[j r] l IH]; cbn; [discriminate|].
  intros Hnd Hf. apply NoDup_cons_iff in Hnd. destruct Hnd as [Hj Hnd].
  destruct (Nat.eqb_spec j k) as [->|Hjk]; cbn.
  - f_equal. rewrite filter_all; [reflexivity|].
    rewrite Forall_forall. intros [j' r'] Hin. cbn.
    destruct (Nat.eqb_spec j' k) as [->|]; [|reflexivity].
    exfalso. apply Hj. apply in_map_iff. exists (k, r'). auto.
  - f_equal. apply IH; assumption.
Qed.

Lemma step_accounted (tok : string) (w : world) (ev : Z * input) :
  token cfg = Some tok -> accounted w -> accounted (step cfg w ev).
Proof.
  intros Ht [Hnd Hiss Hp Hm]. destruct ev as [t i]. unfold step. cbn [fst snd].
  assert (H1 : accounted (advance cfg t w)).
  { constructor.
    - rewrite advance_eq. exact Hnd.
    - rewrite advance_eq. exact Hiss.
    - unfold posts, armed. rewrite !times_of_advance by (intros; reflexivity).
      cbn [is_post is_timeout]. rewrite !app_nil_r, advance_eq. exact Hp.
    - unfold armed, resets. rewrite !times_of_advance by (intros; reflexivity).
      cbn [is_update is_timeout]. rewrite app_nil_r, length_app, advance_eq.
      cbn [timers]. fold (armed w) (resets w). rewrite Hm.
      rewrite <- (filter_length (due t) (timers w)). lia. }
  set (w1 := advance cfg t w) in *. clearbody w1. clear Hnd Hiss Hp Hm.
  destruct H1 as [Hnd Hiss Hp Hm].
  destruct i as [value| |k tr].
  - destruct (strict_eq_num value CONTACT_NOT_DETECTED) eqn:Hv.
    + constructor.
      * rewrite (setContactState_open_eq cfg tok value w1 Ht Hv). cbn [awaiting].
        rewrite map_app. apply NoDup_app; [exact Hnd | repeat constructor; auto |].
        intros a Ha [<-|[]]. rewrite Forall_forall in Hiss.
        specialize (Hiss _ Ha). cbn [fst] in Hiss. lia.
      * rewrite (setContactState_open_eq cfg tok value w1 Ht Hv).
        cbn [awaiting next_request]. rewrite map_app. apply Forall_app. split.
        -- eapply Forall_impl; [|exact Hiss]. cbn. intros; lia.
        -- repeat constructor.
      * unfold posts, armed. rewrite !(times_of_open cfg _ tok value w1) by auto.
        rewrite (setContactState_open_eq cfg tok value w1 Ht Hv).
        cbn [awaiting is_post is_timeout]. rewrite app_nil_r, !length_app.
        fold (posts w1) (armed w1). cbn [length]. lia.
      * unfold armed, resets. rewrite !(times_of_open cfg _ tok value w1) by auto.
        rewrite (setContactState_open_eq cfg tok value w1 Ht Hv).
        cbn [timers is_update is_timeout]. rewrite !app_nil_r. exact Hm.
    + rewrite (setContactState_other_eq cfg value w1 Hv).
      constructor; assumption.
  - constructor; try assumption.
    + unfold posts, armed. rewrite !times_of_emit_answer by reflexivity. exact Hp.
    + unfold armed, resets. rewrite !times_of_emit_answer by reflexivity. exact Hm.
  - destruct (pending_request k w1) as [req|] eqn:Hreq;
      [|constructor; assumption].
    pose proof (resume_length k (awaiting w1) req Hnd Hreq) as Hlen.
    constructor.
    + rewrite setContactState_settled_eq. cbn [awaiting resume].
      assert (E : map fst (filter (fun kr => negb (Nat.eqb (fst kr) k)) (awaiting w1))
                  = filter (fun j => negb (Nat.eqb j k)) (map fst (awaiting w1))).
      { clear. induction (awaiting w1) as [|[j r] l IH]; cbn; [reflexivity|].
        destruct (Nat.eqb j k); cbn; rewrite IH; reflexivity. }
      rewrite E. apply NoDup_filter. exact Hnd.
    + rewrite setContactState_settled_eq. cbn [awaiting resume next_request].
      rewrite Forall_forall in *. intros j Hj. apply Hiss.
      apply in_map_iff in Hj. destruct Hj as ([j' r'] & <- & Hin).
      apply filter_In in Hin. apply in_map_iff. exists (j', r'). tauto.
    + unfold posts, armed. rewrite !times_of_settled by (intros; reflexivity).
      rewrite setContactState_settled_eq.
      cbn [awaiting resume is_post is_timeout clock]. rewrite app_nil_r, length_app.
      change (times_of is_post (resume k w1)) with (posts w1).
      change (times_of is_timeout (resume k w1)) with (armed w1).
      cbn [length]. lia.
    + unfold armed, resets. rewrite !times_of_settled by (intros; reflexivity).
      rewrite setContactState_settled_eq.
      cbn [timers resume is_update is_timeout clock]. rewrite app_nil_r, !length_app.
      change (times_of is_update (resume k w1)) with (resets w1).
      change (times_of is_timeout (resume k w1)) with (armed w1).
      cbn [length]. lia.
Qed.

(** X12.  Nothing is lost and nothing is made up.  For a valid definition
    and any schedule whatever, at any time: every request posted either
    still awaits its response or has started its timer, and every timer
    started either is still pending or has fired its reset; so no reset
    comes without a dispatch that settled, and none comes twice. *)
Theorem dispatches_are_accounted_for (evs : list (Z * input)) (h : Z)
  (Hvalid : valid cfg = true) :
  let w := advance cfg h (run cfg evs init) in
  (length (posts w) = length (awaiting w) + length (timers w) + length (resets w))%nat
  /\ (length (armed w) = length (timers w) + length (resets w))%nat.
Proof.
  destruct (valid_fields cfg Hvalid) as (_ & Ht & _).
  destruct (truthy_prop_some _ Ht) as (tok & Etok & _).
  assert (Hrun : forall evs w, accounted w -> accounted (run cfg evs w)).
  { clear evs. induction evs as [|ev evs IH]; intros w Hw; [exact Hw|].
    cbn [run fold_left]. apply IH. apply (step_accounted tok); assumption. }
  assert (Hinit : accounted init) by (constructor; cbn; constructor).
  pose proof (step_accounted tok _ (h, Activate (VNum 0)) Etok
                (Hrun evs init Hinit)) as H.
  unfold step in H. cbn [fst snd] in H.
  rewrite setContactState_other_eq in H by reflexivity.
  destruct H as [_ _ Hp Hm]. cbv zeta. lia.
Qed.


Lemma setContactState_tokenless_eq (value : CharacteristicValue) (w : world) :
  token cfg = None ->
  strict_eq_num value CONTACT_NOT_DETECTED = true ->
  setContactState cfg value w =
  {| clock := clock w; next_request := next_request w; awaiting := awaiting w;
     timers := (timers w ++ [clock w + 1000])%list;
     trace := (trace w
       ++ [(clock w, ELog (mkLog Info
              [LStr ("Contact sensor opened, triggering webhook: "
                     ++ template (name cfg))]));
           (clock w, ELog (mkLog Debug
              [LStr "Sending notification to:";
               LStr ("https://notifypush.pingie.com/notify-json/"
                     ++ template (id cfg))]));
           (clock w, ELog (mkLog Err
              [LStr ("Failed to send notification for " ++ template (name cfg) ++ ":");
               LError (TypeError
                 "Cannot read properties of undefined (reading 'substring')")]));
           (clock w, ESetTimeout 1000)])%list |}.
Proof.
  intros Ht Hv. unfold setContactState. rewrite Hv.
  unfold sendNotification_request. rewrite Ht. cbn [bind log throw].
  rewrite setContactState_settled_eq. unfold emit. cbn.
  rewrite <- !app_assoc. reflexivity.
Qed.

(** X14.  A handler whose configuration has no token never posts a
    request: every opening activation logs the TypeError of reading the
    token, at error level, and still starts its timer at once, so the
    sensor is reset all the same. *)
Theorem tokenless_never_posts (evs : list (Z * input))
  (Htoken : token cfg = None) :
  posts (run cfg evs init) = []
  /\ awaiting (run cfg evs init) = []
  /\ length (armed (run cfg evs init)) = length (activations evs)
  /\ forall value w,
       strict_eq_num value CONTACT_NOT_DETECTED = true ->
       trace (setContactState cfg value w) =
       (trace w
        ++ [(clock w, ELog (mkLog Info
               [LStr ("Contact sensor opened, triggering webhook: "
                      ++ template (name cfg))]));
            (clock w, ELog (mkLog Debug
               [LStr "Sending notification to:";
                LStr ("https://notifypush.pingie.com/notify-json/"
                      ++ template (id cfg))]));
            (clock w, ELog (mkLog Err
               [LStr ("Failed to send notification for " ++ template (name cfg) ++ ":");
                LError (TypeError
                  "Cannot read properties of undefined (reading 'substring')")]));
            (clock w, ESetTimeout 1000)])%list.
Proof.
  assert (H : forall w, awaiting w = [] ->
            posts (run cfg evs w) = posts w /\ awaiting (run cfg evs w) = []
            /\ length (armed (run cfg evs w))
               = (length (armed w) + length (activations evs))%nat).
  { induction evs as [|[t i] evs IH]; intros w Ha.
    - cbn. rewrite Nat.add_0_r. auto.
    - cbn [run fold_left].
      assert (Hs : awaiting (step cfg w (t, i)) = []
                   /\ posts (step cfg w (t, i)) = posts w
                   /\ length (armed (step cfg w (t, i)))
                      = (length (armed w)
                         + if is_opening i then 1 else 0)%nat).
      { unfold step. cbn [fst snd].
        assert (Ha1 : awaiting (advance cfg t w) = [])
          by (rewrite advance_eq; exact Ha).
        assert (Hp1 : posts (advance cfg t w) = posts w).
        { unfold posts. rewrite times_of_advance by (intros; reflexivity).
          apply app_nil_r. }
        assert (Hm1 : armed (advance cfg t w) = armed w).
        { unfold armed. rewrite times_of_advance by (intros; reflexivity).
          apply app_nil_r. }
        set (w1 := advance cfg t w) in *. clearbody w1.
        destruct i as [value| |k tr]; cbn [is_opening].
        - destruct (strict_eq_num value CONTACT_NOT_DETECTED) eqn:Hv.
          + rewrite (setContactState_tokenless_eq value w1 Htoken Hv).
            unfold posts, armed, times_of. cbn [awaiting trace].
            rewrite !filter_app, !map_app, length_app. cbn.
            fold (times_of is_post w1) (times_of is_timeout w1).
            fold (posts w1) (armed w1).
            rewrite app_nil_r, Hp1, Hm1. auto.
          + rewrite (setContactState_other_eq cfg value w1 Hv).
            rewrite Hp1, Hm1, Nat.add_0_r. auto.
        - unfold posts, armed. rewrite !times_of_emit_answer by reflexivity.
          fold (posts w1) (armed w1). rewrite Hp1, Hm1, Nat.add_0_r. auto.
        - unfold pending_request. rewrite Ha1. cbn.
          rewrite Hp1, Hm1, Nat.add_0_r. auto. }
      destruct Hs as (Ha' & Hp' & Hm').
      fold (run cfg evs (step cfg w (t, i))).
      destruct (IH (step cfg w (t, i)) Ha') as (Hp & Haw & Hm).
      rewrite Hp, Hp', Hm, Hm'. split; [reflexivity|]. split; [exact Haw|].
      unfold activations. cbn [filter snd].
      destruct (is_opening i); cbn [map length]; lia. }
  destruct (H init eq_refl) as (Hp & Ha & Hm).
  split; [exact Hp|]. split; [exact Ha|]. split; [exact Hm|].
  intros value w Hv. rewrite (setContactState_tokenless_eq value w Htoken Hv).
  reflexivity.
Qed.

End EventLoopMore.

Lemma other_values_do_nothing_witness :
  (forall ev, In ev quiet_schedule -> is_opening (snd ev) = false)
  /\ awaiting (run example_config quiet_schedule init) = []
  /\ timers (run example_config quiet_schedule init) = []
  /\ forall t e, In (t, e) (trace (run example_config quiet_schedule init)) ->
                 e = EAnswer CONTACT_DETECTED.
Proof.
  assert (H : forall ev, In ev quiet_schedule -> is_opening (snd ev) = false).
  { intros ev [<-|[<-|[<-|[<-|[]]]]]; reflexivity. }
  split; [exact H|].
  exact (other_values_do_nothing example_config quiet_schedule H).
Defined.

Lemma dispatches_are_accounted_for_witness :
  valid example_config = true
  /\ let w := advance example_config 1300 (run example_config two_activations init) in
     length (posts w) = length (awaiting w) + length (timers w) + length (resets w)
     /\ length (armed w) = length (timers w) + length (resets w).
Proof.
  split; [reflexivity|].
  exact (dispatches_are_accounted_for example_config two_activations 1300%Z eq_refl).
Defined.


Lemma tokenless_never_posts_witness :
  token tokenless_config = None
  /\ posts (run tokenless_config two_activations init) = []
  /\ length (armed (run tokenless_config two_activations init)) = 2.
Proof.
  split; [reflexivity|].
  destruct (tokenless_never_posts tokenless_config two_activations eq_refl)
    as (Hp & _ & Hm & _).
  split; [exact Hp | exact Hm].
Defined.

(* ================================================================= *)
(** ** The settings UI server *)

Section UiServerProperties.

Variable JSON_parse : string -> option jsval.
Variable JSON_stringify : list (string * prop) -> string.
Variable encodeURIComponent : string -> string.

(** X15.  [testWebhook] makes no request for an incomplete payload: without
    a truthy token or text it answers that token and text are required,
    whatever the id; with both but without a truthy id it answers that the
    id is required. *)
Theorem testWebhook_rejects_incomplete (payload : WebhookConfig)
  (net : https_outcome) :
  (truthy_prop (token payload) = false \/ truthy_prop (text payload) = false ->
   let answer :=
     {| success := false; result_message := None;
        result_error :=
          Some (JStr "Missing required fields: token and text are required") |} in
   testWebhook_request JSON_stringify encodeURIComponent payload = inl answer
   /\ testWebhook JSON_parse JSON_stringify encodeURIComponent payload net
      = ([], inr answer))
  /\ (truthy_prop (token payload) = true -> truthy_prop (text payload) = true ->
      truthy_prop (id payload) = false ->
      let answer :=
        {| success := false; result_message := None;
           result_error := Some (JStr "ID is required") |} in
      testWebhook_request JSON_stringify encodeURIComponent payload = inl answer
      /\ testWebhook JSON_parse JSON_stringify encodeURIComponent payload net
         = ([], inr answer)).
Proof.
  unfold testWebhook, testWebhook_request. split.
  - intros [H|H]; rewrite H; cbn [negb orb]; rewrite ?orb_true_r; split; reflexivity.
  - intros Ht Hx Hi. rewrite Ht, Hx, Hi. cbn. split; reflexivity.
Qed.


(** X17.  What [testWebhook] answers once the request is made.  It never
    throws.  A response of status 200 is a success, whatever its body; any
    other status is a failure with an error; an error of the request is
    logged and answered as a failure with the message of the error. *)
Theorem testWebhook_answers (payload : WebhookConfig) (net : https_outcome)
  (Htoken : truthy_prop (token payload) = true)
  (Htext : truthy_prop (text payload) = true)
  (Hid : truthy_prop (id payload) = true) :
  match net with
  | ResponseEnd statusCode data =>
      exists answer,
        testWebhook JSON_parse JSON_stringify encodeURIComponent payload net
          = ([], inr answer)
        /\ (success answer = true <-> statusCode = 200%Z)
        /\ (statusCode = 200%Z ->
            answer = {| success := true;
                        result_message := Some "Notification sent successfully!";
                        result_error := None |})
        /\ (statusCode <> 200%Z ->
            result_message answer = None /\ exists detail,
              result_error answer = Some detail)
  | RequestError e =>
      testWebhook JSON_parse JSON_stringify encodeURIComponent payload net =
      ([mkLog Err [LStr "Test webhook error:"; LError e]],
       inr {| success := false; result_message := None;
              result_error := Some (JStr (error_message e)) |})
  end.
Proof.
  unfold testWebhook, testWebhook_request. rewrite Htoken, Htext, Hid.
  cbn [negb orb]. destruct net as [e|statusCode data]; [reflexivity|].
  cbn [makeHttpsRequest_settle]. eexists. split; [reflexivity|].
  unfold on_end. destruct (Z.eqb_spec statusCode 200) as [->|Hs]; cbn [success].
  - repeat split; intros; try reflexivity; congruence.
  - split; [split; intros; congruence|]. split; [congruence|].
    intros _. cbn. eauto.
Qed.

(** X18.  The error of a failed test, from a JSON object.  For a status
    other than 200 whose body parses to an object: the error is the
    [message] of the object when it is truthy, else its [error] when that
    is truthy, else [HTTP <status>]; the message comes before the error,
    and the status is not shown when either is there. *)
Theorem on_end_detail_from_object (statusCode : Z) (data : string)
  (props : list (string * jsval))
  (Hstatus : statusCode <> 200%Z)
  (Hparsed : JSON_parse data = Some (JObj props)) :
  on_end JSON_parse statusCode data =
  {| success := false; result_message := None;
     result_error :=
       Some (if truthy (get_property (JObj props) "message")
             then get_property (JObj props) "message"
             else if truthy (get_property (JObj props) "error")
                  then get_property (JObj props) "error"
                  else JStr ("HTTP " ++ dec statusCode)) |}.
Proof.
  unfold on_end, parsed_detail, js_or.
  destruct (Z.eqb_spec statusCode 200) as [E|_]; [contradiction|].
  rewrite Hparsed. reflexivity.
Qed.

(** X19.  The error of a failed test, otherwise.  For a status other than
    200: when the body does not parse, and when it parses to [null], the
    error is the raw body if there is one and [HTTP <status>] if the body
    is empty; when the body parses to a string, a number, a boolean or an
    array, the error is [HTTP <status>] and the body is not shown. *)
Theorem on_end_fallbacks (statusCode : Z) (data : string)
  (Hstatus : statusCode <> 200%Z) :
  (JSON_parse data = None \/ JSON_parse data = Some JNull ->
   on_end JSON_parse statusCode data =
   {| success := false; result_message := None;
      result_error := Some (if data =? "" then JStr ("HTTP " ++ dec statusCode)
                            else JStr data) |})
  /\ (forall v, JSON_parse data = Some v ->
        (exists s, v = JStr s) \/ (exists n, v = JNum n)
        \/ (exists b, v = JBool b) \/ (exists items, v = JArr items) ->
        on_end JSON_parse statusCode data =
        {| success := false; result_message := None;
           result_error := Some (JStr ("HTTP " ++ dec statusCode)) |}).
Proof.
  unfold on_end, parsed_detail, js_or.
  destruct (Z.eqb_spec statusCode 200) as [E|_]; [contradiction|]. split.
  - intros [H|H]; rewrite H; destruct (data =? ""); reflexivity.
  - intros v Hv [[s ->]|[[n ->]|[[b ->]|[items ->]]]]; rewrite Hv; reflexivity.
Qed.

End UiServerProperties.


Lemma testWebhook_answers_witness :
  truthy_prop (token example_config) = true
  /\ truthy_prop (text example_config) = true
  /\ truthy_prop (id example_config) = true
  /\ testWebhook example_parse (fun _ => "{}") (fun s => s) example_config
       (RequestError (Error "getaddrinfo ENOTFOUND notifypush.pingie.com"))
     = ([mkLog Err [LStr "Test webhook error:";
                    LError (Error "getaddrinfo ENOTFOUND notifypush.pingie.com")]],
        inr {| success := false; result_message := None;
               result_error :=
                 Some (JStr "getaddrinfo ENOTFOUND notifypush.pingie.com") |}).
Proof.
  split; [reflexivity|]. split; [reflexivity|]. split; [reflexivity|].
  exact (testWebhook_answers example_parse (fun _ => "{}") (fun s => s)
           example_config
           (RequestError (Error "getaddrinfo ENOTFOUND notifypush.pingie.com"))
           eq_refl eq_refl eq_refl).
Defined.

Lemma on_end_detail_from_object_witness :
  404%Z <> 200%Z
  /\ example_parse not_found_body = Some (JObj [("message", JStr "Device not found")])
  /\ on_end example_parse 404 not_found_body =
     {| success := false; result_message := None;
        result_error := Some (JStr "Device not found") |}.
Proof.
  split; [discriminate|]. split; [reflexivity|].
  exact (on_end_detail_from_object example_parse 404%Z not_found_body
           [("message", JStr "Device not found")]
           ltac:(discriminate) eq_refl).
Defined.

Lemma on_end_fallbacks_witness :
  503%Z <> 200%Z
  /\ example_parse "Service Unavailable" = None
  /\ on_end example_parse 503 "Service Unavailable" =
     {| success := false; result_message := None;
        result_error := Some (JStr "Service Unavailable") |}
  /\ example_parse "null" = Some JNull
  /\ on_end example_parse 503 "null" =
     {| success := false; result_message := None;
        result_error := Some (JStr "null") |}.
Proof.
  split; [discriminate|]. split; [reflexivity|].
  destruct (on_end_fallbacks example_parse 503%Z "Service Unavailable"
              ltac:(discriminate)) as [H1 _].
  destruct (on_end_fallbacks example_parse 503%Z "null"
              ltac:(discriminate)) as [H2 _].
  split; [exact (H1 (or_introl eq_refl))|]. split; [reflexivity|].
  exact (H2 (or_intror eq_refl)).
Defined.

(** The reset of the first of two activations is an update to closed. *)
Lemma effects_are_expected_witness :
  In (1250%Z, EUpdate CONTACT_DETECTED)
     (trace (advance example_config 2000 (run example_config two_activations init)))
  /\ expected_effect example_config (EUpdate CONTACT_DETECTED).
Proof.
  assert (H : In (1250%Z, EUpdate CONTACT_DETECTED)
                (trace (advance example_config 2000
                          (run example_config two_activations init)))).
  { vm_compute. repeat (try (left; reflexivity); right). }
  split; [exact H|].
  exact (effects_are_expected example_config two_activations 2000%Z
           1250%Z (EUpdate CONTACT_DETECTED) H).
Defined.
